(** * Aerodynamic coefficients of a blade station ([aero.py])

    A shallow embedding of the class [Aerodynamics] of [aero.py] and a
    verification of the statements made about it.

    Numbers.  The Python code computes on floats; here a float is a real
    number, so rounding, overflow, infinities and nan are outside the model.
    What is kept of the float operations is their domain: [/] raises
    [ZeroDivisionError] on a zero divisor, [math.sqrt] and [math.log] raise
    [ValueError] outside their domain, and [**] on a negative base and a
    fractional exponent yields a complex number.  The scalar arguments are
    taken to be Python floats (as the usage notes at the end of the source
    file pass them).

    Effects.  A call either returns a value or raises; [result] is the error
    monad for that.  Console output ([print]) is not modelled.

    Libraries.  [scipy.interpolate.interp2d] and [numpy.interp] are not part
    of the program; the evaluator is parameterised by them, and a bilinear
    interpolant is supplied where a statement is about the interpolation
    itself. *)

From Stdlib Require Import Reals Lra Lia ZArith String List Bool.
Import ListNotations.
Local Open Scope R_scope.

(** ** Exceptions and the error monad *)

Inductive exn : Set :=
| ValueError
| TypeError
| ZeroDivisionError
| UnboundLocalError.

Inductive result (A : Type) : Type :=
| Ok (a : A)
| Raise (e : exn).

Arguments Ok {A} a.
Arguments Raise {A} e.

Definition bind {A B : Type} (m : result A) (f : A -> result B) : result B :=
  match m with
  | Ok a => f a
  | Raise e => Raise e
  end.

Notation "x <- m ;; k" := (bind m (fun x => k))
  (at level 61, m at next level, right associativity).
Notation "' pat <- m ;; k" := (bind m (fun pat => k))
  (at level 61, pat pattern, m at next level, right associativity).

Fixpoint mapM {A B : Type} (f : A -> result B) (l : list A) : result (list B) :=
  match l with
  | [] => Ok []
  | a :: l' => b <- f a ;; bs <- mapM f l' ;; Ok (b :: bs)
  end.

(** Reading a local variable that no executed branch has assigned. *)
Definition load {A : Type} (v : option A) : result A :=
  match v with
  | Some a => Ok a
  | None => Raise UnboundLocalError
  end.

(** ** Python numbers *)

(** The value of an arithmetic expression on floats is a float or, after a
    [**] on a negative base, a complex number. *)
Inductive pynum : Type :=
| PyFloat (v : R)
| PyComplex (re im : R).

Definition num_re (z : pynum) : R :=
  match z with PyFloat v => v | PyComplex re _ => re end.

Definition num_im (z : pynum) : R :=
  match z with PyFloat _ => 0 | PyComplex _ im => im end.

Definition num_add (a b : pynum) : pynum :=
  match a, b with
  | PyFloat u, PyFloat v => PyFloat (u + v)
  | _, _ => PyComplex (num_re a + num_re b) (num_im a + num_im b)
  end.

Definition num_mul (a b : pynum) : pynum :=
  match a, b with
  | PyFloat u, PyFloat v => PyFloat (u * v)
  | _, _ => PyComplex (num_re a * num_re b - num_im a * num_im b)
                      (num_re a * num_im b + num_im a * num_re b)
  end.

(** [a / b] on floats. *)
Definition truediv (a b : R) : result R :=
  if Req_dec_T b 0 then Raise ZeroDivisionError else Ok (a / b).

(** [math.sqrt]. *)
Definition math_sqrt (a : R) : result R :=
  if Rlt_dec a 0 then Raise ValueError else Ok (sqrt a).

(** [math.log]. *)
Definition math_log (a : R) : result R :=
  if Rle_dec a 0 then Raise ValueError else Ok (ln a).

(** [a ** b] on floats: [1.0] for a zero exponent, then the zero base, the
    positive base, the negative base with an integral exponent, and the
    negative base with a fractional exponent (a complex number of modulus
    [|a| ** b] and argument [b * pi]). *)
Definition float_pow (a b : R) : result pynum :=
  if Req_dec_T b 0 then Ok (PyFloat 1)
  else if Req_dec_T a 0 then
    if Rlt_dec b 0 then Raise ZeroDivisionError else Ok (PyFloat 0)
  else if Rlt_dec 0 a then Ok (PyFloat (Rpower a b))
  else if Req_dec_T (frac_part b) 0 then
    Ok (PyFloat (if Z.even (Int_part b) then Rpower (- a) b
                 else - Rpower (- a) b))
  else Ok (PyComplex (Rpower (- a) b * cos (b * PI))
                     (Rpower (- a) b * sin (b * PI))).

(** [np.deg2rad] and [np.rad2deg]. *)
Definition deg2rad (a : R) : R := a * (PI / 180).
Definition rad2deg (a : R) : R := a * (180 / PI).

(** [np.linspace(start, stop, num)]. *)
Definition linspace (start stop : R) (num : nat) : list R :=
  map (fun i => start + INR i * ((stop - start) / INR (num - 1))) (seq 0 num).

(** ** The evaluator object *)

Record Aerodynamics : Type := {
  aero_method : string;
  M_corr : bool;
  Rey_corr : bool;
  alpha_vec : option (list R)
}.

(** [Aerodynamics.__init__].  The attribute [alpha_vec] is set only for the
    ['xFoil'] method; an attribute that is not set and one that is [None] are
    not told apart, the attribute being read under that method only. *)
Definition Aerodynamics_init (aero_method : string)
    (alpha_vec_xFoil : option (list R)) (M_corr Rey_corr : bool)
  : result Aerodynamics :=
  Ok {| aero_method := aero_method;
        M_corr := M_corr;
        Rey_corr := Rey_corr;
        alpha_vec := if String.eqb aero_method "xFoil"
                     then alpha_vec_xFoil else None |}.

(** ** The xRotor model: constants and local variables *)

Definition CDMSTALL : R := 0.1000.
Definition CDMFACTOR : R := 10.
Definition CLMFACTOR : R := 0.25.
Definition MEXP : R := 3.
Definition CDMDD : R := 0.0020.

(** The local variables of the ['xRotor'] branch of [eval_coeffs] when it
    has run to its end.  [Cl_lin] is the first value of [lift_coeff] (line
    147) and [Cd_base] the first value of [drag_coeff] (line 175). *)
Record xRotor_locals : Type := {
  PG : R;
  Cl_lin : R;
  DMSTALL : R;
  CLMAXM : R;
  CLMAX : R;
  CLMINM : R;
  CLMIN : R;
  ECMAX : R;
  ECMIN : R;
  CLLIM : R;
  FSTALL : R;
  lift_coeff : R;
  RCORR : pynum;
  Cd_base : pynum;
  DCDX : R;
  DCD : R;
  DMDD : R;
  CRITMACH : R;
  CDC : R;
  FAC : R;
  drag_coeff : pynum
}.

(** Lines 169-172: the Reynolds scaling of the xRotor drag. *)
Definition reynolds_RCORR (Re_ref Re Re_scaling_exp : R) : result pynum :=
  if Rle_dec Re 0 then Ok (PyFloat 1)
  else q <- truediv Re Re_ref ;; float_pow q Re_scaling_exp.

(** Lines 136-200.  A float literal with an integral value ([1.0], [200.0])
    is written as that integer.  The exponents [2] and [MEXP = 3.0] are
    integral, so the power is the repeated product for every base (see
    [float_pow_2] and [float_pow_MEXP] below); [CDMSTALL / CDMFACTOR] and
    [CDMDD / CDMFACTOR] are positive constants, so their power is
    [Rpower]. *)
Definition xRotor_branch (AoA Re_ref Re M : R)
    (alpha_0_lift Cl_alpha Cl_alpha_stall Cl_max Cl_min Cl_incr_to_stall
     Cd_min Cl_at_cd_min dCd_dCl2 Mach_crit Re_scaling_exp : option R)
  : result xRotor_locals :=
  match Cl_alpha, alpha_0_lift, Cl_alpha_stall, Cl_max, Cl_min,
        Cl_incr_to_stall, Cd_min, Cl_at_cd_min, dCd_dCl2, Mach_crit,
        Re_scaling_exp with
  | Some Cl_alpha, Some alpha_0_lift, Some Cl_alpha_stall, Some Cl_max,
    Some Cl_min, Some Cl_incr_to_stall, Some Cd_min, Some Cl_at_cd_min,
    Some dCd_dCl2, Some Mach_crit, Some Re_scaling_exp =>
      s <- math_sqrt (1 - M ^ 2) ;;
      PG <- truediv 1 s ;;
      let lift_coeff0 := Cl_alpha * PG * (AoA - alpha_0_lift) in
      let DMSTALL := Rpower (CDMSTALL / CDMFACTOR) (1 / MEXP) in
      let CLMAXM :=
        Rmax 0 ((Mach_crit + DMSTALL - M) / CLMFACTOR) + Cl_at_cd_min in
      let CLMAX := Rmin Cl_max CLMAXM in
      let CLMINM :=
        Rmin 0 ((- (Mach_crit + DMSTALL - M)) / CLMFACTOR) + Cl_at_cd_min in
      let CLMIN := Rmax Cl_min CLMINM in
      emax <- truediv (lift_coeff0 - CLMAX) Cl_incr_to_stall ;;
      let ECMAX := exp (Rmin 200 emax) in
      emin <- truediv (CLMIN - lift_coeff0) Cl_incr_to_stall ;;
      let ECMIN := exp (Rmin 200 emin) in
      ratio <- truediv (1 + ECMAX) (1 + ECMIN) ;;
      lg <- math_log ratio ;;
      let CLLIM := Cl_incr_to_stall * lg in
      FSTALL <- truediv Cl_alpha_stall Cl_alpha ;;
      let lift_coeff := lift_coeff0 - (1 - FSTALL) * CLLIM in
      RCORR <- reynolds_RCORR Re_ref Re Re_scaling_exp ;;
      let drag_coeff0 :=
        num_mul
          (PyFloat (Cd_min + dCd_dCl2 * (lift_coeff - Cl_at_cd_min) ^ 2))
          RCORR in
      FSTALL <- truediv Cl_alpha_stall Cl_alpha ;;
      DCDX <- truediv ((1 - FSTALL) * CLLIM) (PG * Cl_alpha) ;;
      let DCD := 2 * DCDX ^ 2 in
      let DMDD := Rpower (CDMDD / CDMFACTOR) (1 / MEXP) in
      let CRITMACH :=
        Mach_crit - CLMFACTOR * Rabs (lift_coeff - Cl_at_cd_min) - DMDD in
      let CDC := if Rlt_dec M CRITMACH then 0
                 else CDMFACTOR * (M - CRITMACH) ^ 3 in
      let FAC := 1 in
      let drag_coeff :=
        num_add (num_add (num_mul (PyFloat FAC) drag_coeff0) (PyFloat DCD))
                (PyFloat CDC) in
      Ok {| PG := PG; Cl_lin := lift_coeff0; DMSTALL := DMSTALL;
            CLMAXM := CLMAXM; CLMAX := CLMAX; CLMINM := CLMINM;
            CLMIN := CLMIN; ECMAX := ECMAX; ECMIN := ECMIN; CLLIM := CLLIM;
            FSTALL := FSTALL; lift_coeff := lift_coeff; RCORR := RCORR;
            Cd_base := drag_coeff0; DCDX := DCDX; DCD := DCD; DMDD := DMDD;
            CRITMACH := CRITMACH; CDC := CDC; FAC := FAC;
            drag_coeff := drag_coeff |}
  | _, _, _, _, _, _, _, _, _, _, _ => Raise ValueError
  end.

(** Lines 203-208: the exponent of the Reynolds correction. *)
Definition reynolds_f (Re : R) : R :=
  if Rlt_dec Re 1e+5 then -0.4
  else if Rge_dec Re 1e+5 then
         if Rlt_dec Re 1e+6 then -1 else -0.15
       else -0.15.

(** ** The two evaluation entry points *)

Section Evaluator.

(** [interp2d(x, y, z, kind='linear')]: the construction of the interpolant,
    and the interpolant as a function of the query point.  [np.interp]. *)
Variable interp2d :
  option (list R) -> option (list R) -> option (list (list R)) ->
  result (R -> option R -> result R).
Variable np_interp : R -> list R -> list R -> R.

(** [Aerodynamics.eval_lift_properties] (lines 68-104).  With [M] left at
    its default [None], the comparison [M > 0.7] raises [TypeError].  The
    dividend of line 102 is a [numpy.float64] ([np.deg2rad], [interp2d]),
    on which a zero divisor yields [inf] with a warning where [truediv]
    raises: with the Mach flag set and [1 - M^2 = 0], line 102 is outside
    the model. *)
Definition eval_lift_properties (self : Aerodynamics)
    (Cl_database : option (list (list R))) (r_R : option (list R))
    (x : option R) (M : option R) (alpha_0_lift Cl_alpha : option R)
  : result (R * R) :=
  M <- match M with Some m => Ok m | None => Raise TypeError end ;;
  '(Cl_alpha, alpha_0_lift) <-
    (if String.eqb (aero_method self) "flat_plate" then
       Ok (deg2rad (2 * PI), 0)
     else if String.eqb (aero_method self) "xFoil" then
       f_cl <- interp2d (alpha_vec self) r_R Cl_database ;;
       hi <- f_cl 2 x ;;
       lo <- f_cl (-2) x ;;
       let Cl_alpha := (hi - lo) / (2 - (-2)) in
       let alpha_0_lift_vec_interp := linspace (-6) 6 10 in
       Cl <- mapM (fun alpha => f_cl alpha x) alpha_0_lift_vec_interp ;;
       Ok (Cl_alpha, np_interp 0 Cl alpha_0_lift_vec_interp)
     else if String.eqb (aero_method self) "xRotor" then
       match Cl_alpha, alpha_0_lift with
       | Some Cl_alpha, Some alpha_0_lift =>
           Ok (deg2rad Cl_alpha, alpha_0_lift)
       | _, _ => Raise ValueError
       end
     else Raise ValueError) ;;
  Cl_alpha <- (if M_corr self
               then s <- math_sqrt (1 - M ^ 2) ;; truediv Cl_alpha s
               else Ok Cl_alpha) ;;
  Ok (rad2deg Cl_alpha, deg2rad alpha_0_lift).

(** [Aerodynamics.eval_coeffs] (lines 106-215).  The locals [lift_coeff] and
    [drag_coeff] are assigned by the branch that runs, if any; the block of
    lines 202-213 and the [return] read them.  Under the xFoil method
    [lift_coeff] is a [numpy.float64], on which the zero divisor of line 213
    yields [inf] with a warning where [truediv] raises: under that method,
    with the Mach flag set and [1 - M^2 = 0], line 213 is outside the
    model. *)
Definition eval_coeffs (self : Aerodynamics) (AoA Re_ref Re M : R)
    (x : option R) (r_R : option (list R))
    (Cl_database Cd_database : option (list (list R)))
    (alpha_0_lift Cl_alpha Cl_alpha_stall Cl_max Cl_min Cl_incr_to_stall
     Cd_min Cl_at_cd_min dCd_dCl2 Mach_crit Re_scaling_exp : option R)
  : result (R * pynum) :=
  '(lift_coeff, drag_coeff) <-
    (if String.eqb (aero_method self) "flat_plate" then
       let Cl_alpha := 2 * PI in
       s <- math_sqrt (1 - M ^ 2) ;;
       q <- truediv (Cl_alpha * AoA) s ;;
       let lift_coeff := Rmin q 3.5 in
       let lift_coeff := Rmax lift_coeff (-3.5) in
       let drag_coeff := PyFloat 0.0200 in
       Ok (Some lift_coeff, Some drag_coeff)
     else if String.eqb (aero_method self) "xFoil" then
       match alpha_vec self, x, r_R, Cl_database, Cd_database with
       | Some _, Some _, Some _, Some _, Some _ =>
           f_cl <- interp2d (alpha_vec self) r_R Cl_database ;;
           f_cd <- interp2d (alpha_vec self) r_R Cd_database ;;
           lift_coeff <- f_cl AoA x ;;
           drag_coeff <- f_cd AoA x ;;
           Ok (Some lift_coeff, Some (PyFloat drag_coeff))
       | _, _, _, _, _ => Raise ValueError
       end
     else if String.eqb (aero_method self) "xRotor" then
       L <- xRotor_branch AoA Re_ref Re M alpha_0_lift Cl_alpha
              Cl_alpha_stall Cl_max Cl_min Cl_incr_to_stall Cd_min
              Cl_at_cd_min dCd_dCl2 Mach_crit Re_scaling_exp ;;
       Ok (Some (lift_coeff L), Some (drag_coeff L))
     else Ok (None, None)) ;;
  '(lift_coeff, drag_coeff) <-
    (if negb (String.eqb (aero_method self) "xRotor") then
       let f := reynolds_f Re in
       drag_coeff <- (if Rey_corr self
                      then d <- load drag_coeff ;;
                           q <- truediv Re Re_ref ;;
                           p <- float_pow q f ;;
                           Ok (Some (num_mul d p))
                      else Ok drag_coeff) ;;
       lift_coeff <- (if M_corr self
                      then l <- load lift_coeff ;;
                           s <- math_sqrt (1 - M ^ 2) ;;
                           q <- truediv l s ;;
                           Ok (Some q)
                      else Ok lift_coeff) ;;
       Ok (lift_coeff, drag_coeff)
     else Ok (lift_coeff, drag_coeff)) ;;
  l <- load lift_coeff ;;
  d <- load drag_coeff ;;
  Ok (l, d).

End Evaluator.

(** ** Linear interpolation over a table *)

(** Piecewise-linear interpolation through the points [(xs_i, vs_i)], held
    constant outside the axis. *)
Fixpoint interp1 (xs vs : list R) (x : R) : R :=
  match xs, vs with
  | x0 :: xs', v0 :: vs' =>
      if Rle_dec x x0 then v0
      else match xs', vs' with
           | x1 :: _, v1 :: _ =>
               if Rlt_dec x x1
               then v0 + (v1 - v0) * ((x - x0) / (x1 - x0))
               else interp1 xs' vs' x
           | _, _ => v0
           end
  | _, _ => 0
  end.

(** The grid [z] has one row per value of the [y] axis and one column per
    value of the [x] axis. *)
Definition grid_shape (xs ys : list R) (z : list (list R)) : bool :=
  Nat.eqb (length z) (length ys)
  && forallb (fun row => Nat.eqb (length row) (length xs)) z.

(** Linear interpolation along [x] in every row, then along [y]. *)
Definition bilinear (xs ys : list R) (z : list (list R)) (xq yq : R) : R :=
  interp1 ys (map (fun row => interp1 xs row xq) z) yq.

(** Modelled from the spec: [scipy.interpolate.interp2d] is a library
    function, absent from the sources.  Section 4.3 and the round-trip
    property of section 8 describe it as linear 2-D interpolation over the
    table's (angle of attack, span fraction) grid, and section 4.1 allows
    constant extrapolation outside the axes.  A missing argument or a grid
    whose shape does not match the axes is refused. *)
Definition interp2d_linear (x y : option (list R))
    (z : option (list (list R))) : result (R -> option R -> result R) :=
  match x, y, z with
  | Some xs, Some ys, Some zs =>
      if grid_shape xs ys zs
      then Ok (fun xq yq =>
                 match yq with
                 | Some yq => Ok (bilinear xs ys zs xq yq)
                 | None => Raise TypeError
                 end)
      else Raise ValueError
  | _, _, _ => Raise TypeError
  end.

(** Modelled from the spec: [numpy.interp] is a library function, absent
    from the sources; section 4.1 describes its use as linear interpolation
    through the sampled points. *)
Definition np_interp_linear (x : R) (xp fp : list R) : R := interp1 xp fp x.

(** A strictly increasing axis. *)
Fixpoint increasing (xs : list R) : Prop :=
  match xs with
  | [] => True
  | x0 :: xs' => Forall (fun x1 => x0 < x1) xs' /\ increasing xs'
  end.

(** ** The xRotor model in the words of its description *)

(** The eleven empirical parameters, all supplied. *)
Record EmpiricalAirfoilParameters : Type := {
  alpha_0_lift : R;
  Cl_alpha : R;
  Cl_alpha_stall : R;
  Cl_max : R;
  Cl_min : R;
  Cl_incr_to_stall : R;
  Cd_min : R;
  Cl_at_cd_min : R;
  dCd_dCl2 : R;
  Mach_crit : R;
  Re_scaling_exp : R
}.

(** [xRotor_branch] with the eleven parameters supplied. *)
Definition xRotor_eval (p : EmpiricalAirfoilParameters) (AoA Re_ref Re M : R)
  : result xRotor_locals :=
  xRotor_branch AoA Re_ref Re M
    (Some (alpha_0_lift p)) (Some (Cl_alpha p)) (Some (Cl_alpha_stall p))
    (Some (Cl_max p)) (Some (Cl_min p)) (Some (Cl_incr_to_stall p))
    (Some (Cd_min p)) (Some (Cl_at_cd_min p)) (Some (dCd_dCl2 p))
    (Some (Mach_crit p)) (Some (Re_scaling_exp p)).

(** Steps 1 to 5 of the algorithm: the lift coefficient. *)
Definition PG_of (M : R) : R := 1 / sqrt (1 - M ^ 2).

Definition Cl_lin_of (p : EmpiricalAirfoilParameters) (AoA M : R) : R :=
  Cl_alpha p * PG_of M * (AoA - alpha_0_lift p).

Definition DMSTALL_of : R := Rpower (CDMSTALL / CDMFACTOR) (1 / MEXP).

Definition CLMAXM_of (p : EmpiricalAirfoilParameters) (M : R) : R :=
  Rmax 0 ((Mach_crit p + DMSTALL_of - M) / CLMFACTOR) + Cl_at_cd_min p.

Definition CLMAX_of (p : EmpiricalAirfoilParameters) (M : R) : R :=
  Rmin (Cl_max p) (CLMAXM_of p M).

Definition CLMINM_of (p : EmpiricalAirfoilParameters) (M : R) : R :=
  Rmin 0 ((- (Mach_crit p + DMSTALL_of - M)) / CLMFACTOR) + Cl_at_cd_min p.

Definition CLMIN_of (p : EmpiricalAirfoilParameters) (M : R) : R :=
  Rmax (Cl_min p) (CLMINM_of p M).

Definition ECMAX_of (p : EmpiricalAirfoilParameters) (AoA M : R) : R :=
  exp (Rmin 200 ((Cl_lin_of p AoA M - CLMAX_of p M) / Cl_incr_to_stall p)).

Definition ECMIN_of (p : EmpiricalAirfoilParameters) (AoA M : R) : R :=
  exp (Rmin 200 ((CLMIN_of p M - Cl_lin_of p AoA M) / Cl_incr_to_stall p)).

Definition CLLIM_of (p : EmpiricalAirfoilParameters) (AoA M : R) : R :=
  Cl_incr_to_stall p * ln ((1 + ECMAX_of p AoA M) / (1 + ECMIN_of p AoA M)).

Definition FSTALL_of (p : EmpiricalAirfoilParameters) : R :=
  Cl_alpha_stall p / Cl_alpha p.

Definition Cl_of (p : EmpiricalAirfoilParameters) (AoA M : R) : R :=
  Cl_lin_of p AoA M - (1 - FSTALL_of p) * CLLIM_of p AoA M.

(** Steps 7 to 10: the drag coefficient, for a Reynolds factor [rcorr]. *)
Definition Cd_base_of (p : EmpiricalAirfoilParameters) (AoA M : R)
    (rcorr : pynum) : pynum :=
  num_mul
    (PyFloat (Cd_min p + dCd_dCl2 p * (Cl_of p AoA M - Cl_at_cd_min p) ^ 2))
    rcorr.

Definition DCDX_of (p : EmpiricalAirfoilParameters) (AoA M : R) : R :=
  (1 - FSTALL_of p) * CLLIM_of p AoA M / (PG_of M * Cl_alpha p).

Definition DCD_of (p : EmpiricalAirfoilParameters) (AoA M : R) : R :=
  2 * DCDX_of p AoA M ^ 2.

Definition DMDD_of : R := Rpower (CDMDD / CDMFACTOR) (1 / MEXP).

Definition CRITMACH_of (p : EmpiricalAirfoilParameters) (AoA M : R) : R :=
  Mach_crit p - CLMFACTOR * Rabs (Cl_of p AoA M - Cl_at_cd_min p) - DMDD_of.

Definition CDC_of (p : EmpiricalAirfoilParameters) (AoA M : R) : R :=
  if Rlt_dec M (CRITMACH_of p AoA M) then 0
  else CDMFACTOR * (M - CRITMACH_of p AoA M) ^ 3.

Definition Cd_of (p : EmpiricalAirfoilParameters) (AoA M : R)
    (rcorr : pynum) : pynum :=
  num_add (num_add (num_mul (PyFloat 1) (Cd_base_of p AoA M rcorr))
                   (PyFloat (DCD_of p AoA M)))
          (PyFloat (CDC_of p AoA M)).

(** All the locals together. *)
Definition xRotor_formulas (p : EmpiricalAirfoilParameters) (AoA M : R)
    (rcorr : pynum) : xRotor_locals :=
  {| PG := PG_of M;
     Cl_lin := Cl_lin_of p AoA M;
     DMSTALL := DMSTALL_of;
     CLMAXM := CLMAXM_of p M;
     CLMAX := CLMAX_of p M;
     CLMINM := CLMINM_of p M;
     CLMIN := CLMIN_of p M;
     ECMAX := ECMAX_of p AoA M;
     ECMIN := ECMIN_of p AoA M;
     CLLIM := CLLIM_of p AoA M;
     FSTALL := FSTALL_of p;
     lift_coeff := Cl_of p AoA M;
     RCORR := rcorr;
     Cd_base := Cd_base_of p AoA M rcorr;
     DCDX := DCDX_of p AoA M;
     DCD := DCD_of p AoA M;
     DMDD := DMDD_of;
     CRITMACH := CRITMACH_of p AoA M;
     CDC := CDC_of p AoA M;
     FAC := 1;
     drag_coeff := Cd_of p AoA M rcorr |}.

(** The clamp of the flat-plate model, and the post-processing of section
    4.5 in the words of its description: the drag coefficient times
    [(Re/Re_ref)^f] when the Reynolds flag is set, then the lift coefficient
    over [sqrt (1 - M^2)] when the Mach flag is set. *)
Definition clamp (v lo hi : R) : R := Rmax lo (Rmin v hi).

Definition post_processing (mach_flag reynolds_flag : bool)
    (Re_ref Re M : R) (r : R * pynum) : result (R * pynum) :=
  Cd <- (if reynolds_flag
         then q <- truediv Re Re_ref ;;
              k <- float_pow q (reynolds_f Re) ;;
              Ok (num_mul (snd r) k)
         else Ok (snd r)) ;;
  Cl <- (if mach_flag
         then s <- math_sqrt (1 - M ^ 2) ;; truediv (fst r) s
         else Ok (fst r)) ;;
  Ok (Cl, Cd).

(** An evaluator with both correction flags cleared. *)
Definition without_corrections (self : Aerodynamics) : Aerodynamics :=
  {| aero_method := aero_method self;
     M_corr := false;
     Rey_corr := false;
     alpha_vec := alpha_vec self |}.

(** ** Evaluators and calls used as examples *)

Definition flat_plate_evaluator (M_corr Rey_corr : bool) : Aerodynamics :=
  {| aero_method := "flat_plate"; M_corr := M_corr; Rey_corr := Rey_corr;
     alpha_vec := None |}.

Definition xRotor_evaluator (M_corr Rey_corr : bool) : Aerodynamics :=
  {| aero_method := "xRotor"; M_corr := M_corr; Rey_corr := Rey_corr;
     alpha_vec := None |}.

Definition xFoil_evaluator (alpha_vec_xFoil : list R) (M_corr Rey_corr : bool)
  : Aerodynamics :=
  {| aero_method := "xFoil"; M_corr := M_corr; Rey_corr := Rey_corr;
     alpha_vec := Some alpha_vec_xFoil |}.

(** A call [eval_coeffs(AoA, Re_ref, Re, M)], every keyword argument left at
    its default [None] (line 303 of the usage notes). *)
Definition eval_coeffs_positional (self : Aerodynamics) (AoA Re_ref Re M : R)
  : result (R * pynum) :=
  eval_coeffs interp2d_linear self AoA Re_ref Re M None None None None
    None None None None None None None None None None None.

(** A call with the eleven xRotor parameters supplied (line 293). *)
Definition eval_coeffs_with (self : Aerodynamics) (AoA Re_ref Re M : R)
    (p : EmpiricalAirfoilParameters) : result (R * pynum) :=
  eval_coeffs interp2d_linear self AoA Re_ref Re M None None None None
    (Some (alpha_0_lift p)) (Some (Cl_alpha p)) (Some (Cl_alpha_stall p))
    (Some (Cl_max p)) (Some (Cl_min p)) (Some (Cl_incr_to_stall p))
    (Some (Cd_min p)) (Some (Cl_at_cd_min p)) (Some (dCd_dCl2 p))
    (Some (Mach_crit p)) (Some (Re_scaling_exp p)).

(** The parameter values of the usage notes (lines 294-296). *)
Definition usage_parameters : EmpiricalAirfoilParameters :=
  {| alpha_0_lift := 0; Cl_alpha := 6.28; Cl_alpha_stall := 0.100;
     Cl_max := 1.5; Cl_min := -0.5; Cl_incr_to_stall := 0.100;
     Cd_min := 0.0130; Cl_at_cd_min := 0.500; dCd_dCl2 := 0.004;
     Mach_crit := 0.8; Re_scaling_exp := -0.15 |}.

(** The same airfoil with the lift slope kept after stall
    ([Cl_alpha_stall = Cl_alpha]), which switches the stall limiter off. *)
Definition unstalled_parameters : EmpiricalAirfoilParameters :=
  {| alpha_0_lift := 0; Cl_alpha := 6.28; Cl_alpha_stall := 6.28;
     Cl_max := 1.5; Cl_min := -0.5; Cl_incr_to_stall := 0.100;
     Cd_min := 0.0130; Cl_at_cd_min := 0.500; dCd_dCl2 := 0.004;
     Mach_crit := 0.8; Re_scaling_exp := -0.15 |}.

(** Some of the arguments in [l] is [None]. *)
Definition some_missing (l : list (option R)) : Prop :=
  exists v, In v l /\ v = None.

(** A small polar table: two angles of attack, two span stations. *)
Definition example_alpha_vec : list R := [0; 5].
Definition example_r_R : list R := [0.2; 1].
Definition example_Cl_database : list (list R) := [[0.2; 0.7]; [0.3; 0.8]].
Definition example_Cd_database : list (list R) :=
  [[0.010; 0.020]; [0.011; 0.021]].

(** A call of [eval_coeffs] under the xFoil method on that table. *)
Definition eval_coeffs_example_table (M_corr Rey_corr : bool)
    (AoA Re_ref Re M x : R) : result (R * pynum) :=
  eval_coeffs interp2d_linear
    (xFoil_evaluator example_alpha_vec M_corr Rey_corr) AoA Re_ref Re M
    (Some x) (Some example_r_R)
    (Some example_Cl_database) (Some example_Cd_database)
    None None None None None None None None None None None.

(** An evaluator with the Reynolds correction flag cleared. *)
Definition without_reynolds_correction (self : Aerodynamics) : Aerodynamics :=
  {| aero_method := aero_method self;
     M_corr := M_corr self;
     Rey_corr := false;
     alpha_vec := alpha_vec self |}.

(** A call [eval_lift_properties(M = M, alpha_0_lift = .., Cl_alpha = ..)]
    without a polar table (lines 285 and 289 of the usage notes). *)
Definition eval_lift_properties_plain (self : Aerodynamics) (M : option R)
    (alpha_0_lift Cl_alpha : option R) : result (R * R) :=
  eval_lift_properties interp2d_linear np_interp_linear self None None None
    M alpha_0_lift Cl_alpha.

(** A polar table that is linear in the angle of attack at every station:
    each row holds [k * alpha + m] along the angle axis. *)
Definition linear_polar (k m : R) (xs ys : list R) (z : list (list R))
  : Prop :=
  length z = length ys /\
  Forall (fun row => row = map (fun a => k * a + m) xs) z.

(** A linear polar on two stations, [Cl = 0.1 alpha + 0.1] for angles from
    -10 to 10 degrees. *)
Definition linear_alpha_vec : list R := [-10; 10].
Definition linear_Cl_database : list (list R) := [[-0.9; 1.1]; [-0.9; 1.1]].

(** * Verification *)

(** ** The float operations *)

Lemma bind_Ok_inv {A B : Type} (m : result A) (f : A -> result B) (b : B) :
  bind m f = Ok b -> exists a, m = Ok a /\ f a = Ok b.
Proof.
  destruct m as [a|e]; simpl; intros H.
  - exists a; split; [reflexivity | exact H].
  - discriminate H.
Qed.

Lemma truediv_ok (a b : R) : b <> 0 -> truediv a b = Ok (a / b).
Proof.
  intros Hb. unfold truediv. destruct (Req_dec_T b 0) as [E|_].
  - contradiction.
  - reflexivity.
Qed.

Lemma truediv_zero (a : R) : truediv a 0 = Raise ZeroDivisionError.
Proof.
  unfold truediv. destruct (Req_dec_T 0 0) as [_|N].
  - reflexivity.
  - exfalso; apply N; reflexivity.
Qed.

Lemma truediv_inv (a b v : R) : truediv a b = Ok v -> b <> 0 /\ v = a / b.
Proof.
  unfold truediv. destruct (Req_dec_T b 0) as [E|N]; intros H.
  - discriminate H.
  - injection H as <-. split; [exact N | reflexivity].
Qed.

Lemma math_sqrt_ok (a : R) : 0 <= a -> math_sqrt a = Ok (sqrt a).
Proof.
  intros Ha. unfold math_sqrt. destruct (Rlt_dec a 0) as [L|_].
  - lra.
  - reflexivity.
Qed.

Lemma math_sqrt_inv (a v : R) : math_sqrt a = Ok v -> 0 <= a /\ v = sqrt a.
Proof.
  unfold math_sqrt. destruct (Rlt_dec a 0) as [L|N]; intros H.
  - discriminate H.
  - injection H as <-. split; [lra | reflexivity].
Qed.

Lemma math_log_ok (a : R) : 0 < a -> math_log a = Ok (ln a).
Proof.
  intros Ha. unfold math_log. destruct (Rle_dec a 0) as [L|_].
  - lra.
  - reflexivity.
Qed.

Lemma math_log_inv (a v : R) : math_log a = Ok v -> 0 < a /\ v = ln a.
Proof.
  unfold math_log. destruct (Rle_dec a 0) as [L|N]; intros H.
  - discriminate H.
  - injection H as <-. split; [lra | reflexivity].
Qed.

Lemma float_pow_pos (a b : R) :
  0 < a -> b <> 0 -> float_pow a b = Ok (PyFloat (Rpower a b)).
Proof.
  intros Ha Hb. unfold float_pow.
  destruct (Req_dec_T b 0) as [E|_]; [contradiction|].
  destruct (Req_dec_T a 0) as [E|_]; [lra|].
  destruct (Rlt_dec 0 a) as [_|N]; [reflexivity | contradiction].
Qed.

(** A power never raises on a non-zero base. *)
Lemma float_pow_defined (a b : R) :
  a <> 0 -> exists z, float_pow a b = Ok z.
Proof.
  intros Ha. unfold float_pow.
  destruct (Req_dec_T b 0); [eexists; reflexivity|].
  destruct (Req_dec_T a 0); [contradiction|].
  destruct (Rlt_dec 0 a); [eexists; reflexivity|].
  destruct (Req_dec_T (frac_part b) 0); eexists; reflexivity.
Qed.

Lemma Rpower_3 (a : R) : 0 < a -> Rpower a 3 = a ^ 3.
Proof.
  intros Ha. replace 3 with (INR 3) by (simpl; lra). apply Rpower_pow, Ha.
Qed.

Lemma Rpower_2 (a : R) : 0 < a -> Rpower a 2 = a ^ 2.
Proof.
  intros Ha. replace 2 with (INR 2) by (simpl; lra). apply Rpower_pow, Ha.
Qed.

(** [a ** 2] is the square of [a], whatever the sign of [a]. *)
Lemma float_pow_2 (a : R) : float_pow a 2 = Ok (PyFloat (a ^ 2)).
Proof.
  unfold float_pow.
  destruct (Req_dec_T 2 0) as [E|_]; [lra|].
  destruct (Req_dec_T a 0) as [E|Na].
  - destruct (Rlt_dec 2 0) as [L|_]; [lra|]. subst a. do 2 f_equal. lra.
  - destruct (Rlt_dec 0 a) as [P|N].
    + rewrite Rpower_2 by exact P. reflexivity.
    + assert (Hi : Int_part 2 = 2%Z /\ frac_part 2 = 0).
      { destruct (Int_part_frac_part_spec 2 2 0) as [Hz Hf];
          [lra | simpl; lra | ]. split; symmetry; assumption. }
      destruct Hi as [Hi Hf]. rewrite Hf, Hi.
      destruct (Req_dec_T 0 0) as [_|N0]; [|exfalso; apply N0; reflexivity].
      simpl Z.even. rewrite Rpower_2 by lra. do 2 f_equal. lra.
Qed.

(** [a ** MEXP] on the non-negative base of line 190. *)
Lemma float_pow_MEXP (a : R) :
  0 <= a -> float_pow a MEXP = Ok (PyFloat (a ^ 3)).
Proof.
  intros Ha. unfold float_pow, MEXP.
  destruct (Req_dec_T 3 0) as [E|_]; [lra|].
  destruct (Req_dec_T a 0) as [E|Na].
  - destruct (Rlt_dec 3 0) as [L|_]; [lra|]. subst a. do 2 f_equal. lra.
  - destruct (Rlt_dec 0 a) as [P|N]; [|lra].
    rewrite Rpower_3 by exact P. reflexivity.
Qed.

Lemma sqrt_compl_pos (M : R) : 0 <= M < 1 -> 0 < sqrt (1 - M ^ 2).
Proof.
  intros [H0 H1]. apply sqrt_lt_R0. nra.
Qed.

Lemma sqrt_compl_lt_1 (M : R) : 0 < M < 1 -> sqrt (1 - M ^ 2) < 1.
Proof.
  intros [H0 H1]. rewrite <- sqrt_1 at 2. apply sqrt_lt_1; nra.
Qed.

(** ** The xRotor branch against its description *)

Lemma limiter_ratio_pos (a b : R) : 0 < (1 + exp a) / (1 + exp b).
Proof.
  pose proof (exp_pos a). pose proof (exp_pos b).
  apply Rdiv_lt_0_compat; lra.
Qed.

(** When no float operation leaves its domain, the branch runs to its end
    and its locals are those of the description. *)
Lemma xRotor_eval_ok (p : EmpiricalAirfoilParameters) (AoA Re_ref Re M : R)
    (rcorr : pynum) :
  0 <= M < 1 ->
  Cl_alpha p <> 0 ->
  Cl_incr_to_stall p <> 0 ->
  reynolds_RCORR Re_ref Re (Re_scaling_exp p) = Ok rcorr ->
  xRotor_eval p AoA Re_ref Re M = Ok (xRotor_formulas p AoA M rcorr).
Proof.
  intros HM Ha Hi Hr.
  pose proof (sqrt_compl_pos M HM) as Hs.
  unfold xRotor_eval, xRotor_branch.
  rewrite math_sqrt_ok by nra. cbn [bind].
  rewrite truediv_ok by lra. cbn [bind].
  rewrite !(truediv_ok _ (Cl_incr_to_stall p)) by exact Hi. cbn [bind].
  rewrite (truediv_ok (1 + _) (1 + _))
    by (match goal with |- 1 + exp ?b <> 0 => pose proof (exp_pos b) end; lra).
  cbn [bind].
  rewrite math_log_ok by apply limiter_ratio_pos. cbn [bind].
  rewrite !(truediv_ok _ (Cl_alpha p)) by exact Ha. cbn [bind].
  rewrite Hr. cbn [bind].
  rewrite truediv_ok.
  - reflexivity.
  - apply Rmult_integral_contrapositive_currified; [|exact Ha].
    unfold Rdiv. apply Rmult_integral_contrapositive_currified; [lra|].
    apply Rinv_neq_0_compat. lra.
Qed.

Ltac step_bind H a Ha :=
  apply bind_Ok_inv in H; destruct H as (a & Ha & H); cbv beta zeta in H.

(** Conversely, a run that reaches the end of the branch has met no fault,
    and its locals are those of the description. *)
Lemma xRotor_eval_inv (p : EmpiricalAirfoilParameters) (AoA Re_ref Re M : R)
    (L : xRotor_locals) :
  xRotor_eval p AoA Re_ref Re M = Ok L ->
  0 < 1 - M ^ 2 /\ Cl_alpha p <> 0 /\ Cl_incr_to_stall p <> 0 /\
  reynolds_RCORR Re_ref Re (Re_scaling_exp p) = Ok (RCORR L) /\
  L = xRotor_formulas p AoA M (RCORR L).
Proof.
  unfold xRotor_eval, xRotor_branch. cbv beta iota zeta. intros H.
  step_bind H s Hs. apply math_sqrt_inv in Hs. destruct Hs as [Hs ->].
  step_bind H pg Hpg. apply truediv_inv in Hpg. destruct Hpg as [Hsq ->].
  step_bind H emax Hemax. apply truediv_inv in Hemax.
  destruct Hemax as [Hi ->].
  step_bind H emin Hemin. apply truediv_inv in Hemin.
  destruct Hemin as [_ ->].
  step_bind H ratio Hratio. apply truediv_inv in Hratio.
  destruct Hratio as [_ ->].
  step_bind H lg Hlg. apply math_log_inv in Hlg. destruct Hlg as [_ ->].
  step_bind H fs Hfs. apply truediv_inv in Hfs. destruct Hfs as [Ha ->].
  step_bind H rc Hrc.
  step_bind H fs' Hfs'. apply truediv_inv in Hfs'. destruct Hfs' as [_ ->].
  step_bind H dx Hdx. apply truediv_inv in Hdx. destruct Hdx as [_ ->].
  injection H as <-. cbn [RCORR].
  repeat split; try assumption.
  destruct (Req_dec_T (1 - M ^ 2) 0) as [E|N]; [|lra].
  exfalso. apply Hsq. rewrite E. apply sqrt_0.
Qed.

(** ** The branches of [eval_coeffs] *)

Section Dispatch.

Variable interp2d :
  option (list R) -> option (list R) -> option (list (list R)) ->
  result (R -> option R -> result R).

Variables (self : Aerodynamics) (AoA Re_ref Re M : R).
Variables (x : option R) (r_R : option (list R)).
Variables (Cl_database Cd_database : option (list (list R))).
Variables (a0 cla clas clmax clmin clincr cdmin clcd dcd mcrit rexp : option R).

Lemma eval_coeffs_xRotor :
  aero_method self = "xRotor"%string ->
  eval_coeffs interp2d self AoA Re_ref Re M x r_R Cl_database Cd_database
    a0 cla clas clmax clmin clincr cdmin clcd dcd mcrit rexp
  = (L <- xRotor_branch AoA Re_ref Re M
            a0 cla clas clmax clmin clincr cdmin clcd dcd mcrit rexp ;;
     Ok (lift_coeff L, drag_coeff L)).
Proof.
  intros Hm. unfold eval_coeffs. rewrite Hm.
  change (String.eqb "xRotor" "flat_plate") with false.
  change (String.eqb "xRotor" "xFoil") with false.
  change (String.eqb "xRotor" "xRotor") with true.
  cbv iota.
  destruct (xRotor_branch AoA Re_ref Re M
              a0 cla clas clmax clmin clincr cdmin clcd dcd mcrit rexp);
    reflexivity.
Qed.

Lemma eval_coeffs_flat_plate :
  aero_method self = "flat_plate"%string ->
  eval_coeffs interp2d self AoA Re_ref Re M x r_R Cl_database Cd_database
    a0 cla clas clmax clmin clincr cdmin clcd dcd mcrit rexp
  = (s <- math_sqrt (1 - M ^ 2) ;;
     q <- truediv (2 * PI * AoA) s ;;
     post_processing (M_corr self) (Rey_corr self) Re_ref Re M
       (Rmax (Rmin q 3.5) (-3.5), PyFloat 0.0200)).
Proof.
  intros Hm. unfold eval_coeffs, post_processing. rewrite Hm.
  change (String.eqb "flat_plate" "flat_plate") with true.
  change (String.eqb "flat_plate" "xRotor") with false.
  cbv iota.
  destruct (math_sqrt (1 - M ^ 2)) as [s|e]; [|reflexivity]. cbn [bind].
  destruct (truediv (2 * PI * AoA) s) as [q|e]; [|reflexivity].
  cbn [bind negb load fst snd].
  destruct (Rey_corr self); cbn [bind].
  - destruct (truediv Re Re_ref) as [k|e]; [|reflexivity]. cbn [bind].
    destruct (float_pow k (reynolds_f Re)) as [z|e]; [|reflexivity].
    cbn [bind load].
    destruct (M_corr self); cbn [bind load]; [|reflexivity].
    destruct (truediv (Rmax (Rmin q 3.5) (-3.5)) s); reflexivity.
  - destruct (M_corr self); cbn [bind load]; [|reflexivity].
    destruct (truediv (Rmax (Rmin q 3.5) (-3.5)) s); reflexivity.
Qed.

(** The ['xFoil'] branch, lines 127-134, as a computation of its own. *)
Lemma eval_coeffs_xFoil :
  aero_method self = "xFoil"%string ->
  eval_coeffs interp2d self AoA Re_ref Re M x r_R Cl_database Cd_database
    a0 cla clas clmax clmin clincr cdmin clcd dcd mcrit rexp
  = (r <- match alpha_vec self, x, r_R, Cl_database, Cd_database with
          | Some _, Some _, Some _, Some _, Some _ =>
              f_cl <- interp2d (alpha_vec self) r_R Cl_database ;;
              f_cd <- interp2d (alpha_vec self) r_R Cd_database ;;
              l <- f_cl AoA x ;;
              d <- f_cd AoA x ;;
              Ok (l, PyFloat d)
          | _, _, _, _, _ => Raise ValueError
          end ;;
     post_processing (M_corr self) (Rey_corr self) Re_ref Re M r).
Proof.
  intros Hm. unfold eval_coeffs, post_processing. rewrite Hm.
  change (String.eqb "xFoil" "flat_plate") with false.
  change (String.eqb "xFoil" "xFoil") with true.
  change (String.eqb "xFoil" "xRotor") with false.
  cbv iota.
  destruct (alpha_vec self) as [av|]; [|reflexivity].
  destruct x as [xq|]; [|reflexivity].
  destruct r_R as [ys|]; [|reflexivity].
  destruct Cl_database as [zl|]; [|reflexivity].
  destruct Cd_database as [zd|]; [|reflexivity].
  destruct (interp2d (Some av) (Some ys) (Some zl)) as [f_cl|e];
    [|reflexivity]. cbn [bind].
  destruct (interp2d (Some av) (Some ys) (Some zd)) as [f_cd|e];
    [|reflexivity]. cbn [bind].
  destruct (f_cl AoA (Some xq)) as [l|e]; [|reflexivity]. cbn [bind].
  destruct (f_cd AoA (Some xq)) as [d|e]; [|reflexivity].
  cbn [bind negb load fst snd].
  destruct (Rey_corr self); cbn [bind].
  - destruct (truediv Re Re_ref) as [k|e]; [|reflexivity]. cbn [bind].
    destruct (float_pow k (reynolds_f Re)) as [z|e]; [|reflexivity].
    cbn [bind load].
    destruct (M_corr self); cbn [bind load]; [|reflexivity].
    destruct (math_sqrt (1 - M ^ 2)) as [s'|e]; [|reflexivity]. cbn [bind].
    destruct (truediv l s'); reflexivity.
  - destruct (M_corr self); cbn [bind load]; [|reflexivity].
    destruct (math_sqrt (1 - M ^ 2)) as [s'|e]; [|reflexivity]. cbn [bind].
    destruct (truediv l s'); reflexivity.
Qed.

(** An unknown method: no branch assigns the locals, and the first read of
    one of them fails. *)
Lemma eval_coeffs_unknown :
  aero_method self <> "flat_plate"%string ->
  aero_method self <> "xFoil"%string ->
  aero_method self <> "xRotor"%string ->
  eval_coeffs interp2d self AoA Re_ref Re M x r_R Cl_database Cd_database
    a0 cla clas clmax clmin clincr cdmin clcd dcd mcrit rexp
  = Raise UnboundLocalError.
Proof.
  intros H1 H2 H3. unfold eval_coeffs.
  apply String.eqb_neq in H1, H2, H3. rewrite H1, H2, H3.
  cbn [bind negb load].
  destruct (Rey_corr self); [reflexivity|]. cbn [bind].
  destruct (M_corr self); reflexivity.
Qed.

End Dispatch.

Lemma post_processing_off (Re_ref Re M : R) (r : R * pynum) :
  post_processing false false Re_ref Re M r = Ok r.
Proof. destruct r; reflexivity. Qed.

(** ** The post-processing of lines 202-213 *)

Lemma reynolds_f_cases (Re : R) :
  (Re < 1e+5 -> reynolds_f Re = -0.4) /\
  (1e+5 <= Re < 1e+6 -> reynolds_f Re = -1) /\
  (1e+6 <= Re -> reynolds_f Re = -0.15).
Proof.
  unfold reynolds_f.
  destruct (Rlt_dec Re 1e+5) as [A|A];
    [|destruct (Rge_dec Re 1e+5) as [B|B];
      [destruct (Rlt_dec Re 1e+6) as [C|C]|]];
    repeat split; intros; try reflexivity; lra.
Qed.

Lemma reynolds_f_nonzero (Re : R) : reynolds_f Re <> 0.
Proof.
  unfold reynolds_f.
  destruct (Rlt_dec Re 1e+5); [lra|].
  destruct (Rge_dec Re 1e+5); [destruct (Rlt_dec Re 1e+6)|]; lra.
Qed.

(** The value of the post-processing when no float operation leaves its
    domain. *)
Lemma post_processing_value (mc rc : bool) (Re_ref Re M cl cd : R) :
  0 <= M < 1 -> 0 < Re -> 0 < Re_ref ->
  post_processing mc rc Re_ref Re M (cl, PyFloat cd)
  = Ok (if mc then cl / sqrt (1 - M ^ 2) else cl,
        PyFloat (if rc then cd * Rpower (Re / Re_ref) (reynolds_f Re)
                 else cd)).
Proof.
  intros HM HRe HRef. pose proof (sqrt_compl_pos M HM) as Hs.
  unfold post_processing. cbn [fst snd].
  assert (Hq : 0 < Re / Re_ref) by (apply Rdiv_lt_0_compat; assumption).
  destruct rc; cbn [bind].
  - rewrite truediv_ok by lra. cbn [bind].
    rewrite float_pow_pos by (try exact Hq; apply reynolds_f_nonzero).
    cbn [bind num_mul].
    destruct mc; cbn [bind]; [|reflexivity].
    rewrite math_sqrt_ok by nra. cbn [bind].
    rewrite truediv_ok by lra. reflexivity.
  - destruct mc; cbn [bind]; [|reflexivity].
    rewrite math_sqrt_ok by nra. cbn [bind].
    rewrite truediv_ok by lra. reflexivity.
Qed.

(** The lift coefficient after post-processing, whatever number the drag
    coefficient is. *)
Lemma post_processing_lift (mc rc : bool) (Re_ref Re M cl : R) (cd : pynum) :
  0 <= M < 1 ->
  (rc = true -> Re <> 0 /\ Re_ref <> 0) ->
  exists cd',
    post_processing mc rc Re_ref Re M (cl, cd)
    = Ok (if mc then cl / sqrt (1 - M ^ 2) else cl, cd').
Proof.
  intros HM Hrc. pose proof (sqrt_compl_pos M HM) as Hs.
  unfold post_processing. cbn [fst snd].
  assert (Hcd : exists cd',
             (if rc
              then q <- truediv Re Re_ref ;;
                   k <- float_pow q (reynolds_f Re) ;; Ok (num_mul cd k)
              else Ok cd) = Ok cd').
  { destruct rc; [|eexists; reflexivity].
    destruct (Hrc eq_refl) as [HRe HRef].
    rewrite truediv_ok by exact HRef. cbn [bind].
    destruct (float_pow_defined (Re / Re_ref) (reynolds_f Re)) as [z Hz].
    - unfold Rdiv. apply Rmult_integral_contrapositive_currified;
        [exact HRe | apply Rinv_neq_0_compat; exact HRef].
    - rewrite Hz. eexists; reflexivity. }
  destruct Hcd as [cd' Hcd]. exists cd'. rewrite Hcd. cbn [bind].
  destruct mc; cbn [bind]; [|reflexivity].
  rewrite math_sqrt_ok by nra. cbn [bind].
  rewrite truediv_ok by lra. reflexivity.
Qed.

Lemma clamp_as_coded (q : R) : Rmax (Rmin q 3.5) (-3.5) = clamp q (-3.5) 3.5.
Proof. unfold clamp. apply Rmax_comm. Qed.

(** The flat-plate branch for a subsonic Mach number. *)
Lemma flat_plate_value
    (interp2d : option (list R) -> option (list R) ->
                option (list (list R)) -> result (R -> option R -> result R))
    (self : Aerodynamics) (AoA Re_ref Re M : R)
    (x : option R) (r_R : option (list R))
    (Cl_database Cd_database : option (list (list R)))
    (a0 cla clas clmax clmin clincr cdmin clcd dcd mcrit rexp : option R) :
  aero_method self = "flat_plate"%string ->
  0 <= M < 1 ->
  eval_coeffs interp2d self AoA Re_ref Re M x r_R Cl_database Cd_database
    a0 cla clas clmax clmin clincr cdmin clcd dcd mcrit rexp
  = post_processing (M_corr self) (Rey_corr self) Re_ref Re M
      (clamp (2 * PI * AoA / sqrt (1 - M ^ 2)) (-3.5) 3.5, PyFloat 0.0200).
Proof.
  intros Hm HM. pose proof (sqrt_compl_pos M HM) as Hs.
  rewrite eval_coeffs_flat_plate by exact Hm.
  rewrite math_sqrt_ok by nra. cbn [bind].
  rewrite truediv_ok by lra. cbn [bind].
  rewrite clamp_as_coded. reflexivity.
Qed.

(** ** The flat-plate model *)

Lemma sqrt_compl_0 : sqrt (1 - 0 ^ 2) = 1.
Proof. replace (1 - 0 ^ 2) with 1 by lra. apply sqrt_1. Qed.

Lemma Rpower_2_m1 : Rpower 2 (-1) = / 2.
Proof.
  replace (-1) with (Ropp 1) by lra.
  rewrite Rpower_Ropp, Rpower_1 by lra. reflexivity.
Qed.

(** The two flat-plate scenarios of the description, flags cleared:
    [AoA = 0.1] gives [Cl = 2 pi 0.1], and [AoA = 1] is clamped to [3.5]. *)
Example flat_plate_scenario_linear :
  eval_coeffs_positional (flat_plate_evaluator false false) 0.1 1e+6 1e+6 0
  = Ok (2 * PI * 0.1, PyFloat 0.0200).
Proof.
  unfold eval_coeffs_positional.
  rewrite flat_plate_value by (try reflexivity; lra).
  rewrite post_processing_off, sqrt_compl_0.
  pose proof PI2_3_2 as Hlo. pose proof PI_4 as Hhi.
  do 2 f_equal. unfold clamp.
  rewrite Rmin_left by lra. rewrite Rmax_right by lra. lra.
Qed.

Example flat_plate_scenario_clamped :
  eval_coeffs_positional (flat_plate_evaluator false false) 1 1e+6 1e+6 0
  = Ok (3.5, PyFloat 0.0200).
Proof.
  unfold eval_coeffs_positional.
  rewrite flat_plate_value by (try reflexivity; lra).
  rewrite post_processing_off, sqrt_compl_0.
  pose proof PI2_3_2 as Hlo.
  do 2 f_equal. unfold clamp.
  rewrite Rmin_right by lra. rewrite Rmax_right by lra. reflexivity.
Qed.

(** C5, as stated, fails: with the Reynolds flag set, [Re = 2e5] and
    [Re_ref = 1e5], the flat-plate drag coefficient returned at [M = 0] is
    [0.02 * 2 ** -1 = 0.01], not [0.02]. *)
Lemma flat_plate_reynolds_flag_scales_drag :
  eval_coeffs_positional (flat_plate_evaluator false true) 0.1 1e+5 2e+5 0
  = Ok (clamp (2 * PI * 0.1) (-3.5) 3.5, PyFloat 0.0100)
  /\ eval_coeffs_positional (flat_plate_evaluator false true) 0.1 1e+5 2e+5 0
     <> Ok (clamp (2 * PI * 0.1) (-3.5) 3.5, PyFloat 0.0200).
Proof.
  assert (E : eval_coeffs_positional (flat_plate_evaluator false true)
                0.1 1e+5 2e+5 0
              = Ok (clamp (2 * PI * 0.1) (-3.5) 3.5, PyFloat 0.0100)).
  { unfold eval_coeffs_positional.
    rewrite flat_plate_value by (try reflexivity; lra).
    cbn [flat_plate_evaluator M_corr Rey_corr].
    rewrite post_processing_value by lra.
    rewrite sqrt_compl_0.
    rewrite (proj1 (proj2 (reynolds_f_cases 2e+5))) by lra.
    replace (2e+5 / 1e+5) with 2 by lra. rewrite Rpower_2_m1.
    do 2 f_equal.
    - f_equal. lra.
    - f_equal. lra. }
  split; [exact E|]. rewrite E. intros H. injection H as H. lra.
Qed.

(** C5, amended: with both correction flags cleared the flat-plate model
    returns [Cl = clamp(2 pi AoA / sqrt(1 - M^2), -3.5, 3.5)] and
    [Cd = 0.02] for every angle of attack, every Mach number in [[0, 1)] and
    every Reynolds number; at [M = 0] the Mach flag makes no difference and
    the result is [Cl = clamp(2 pi AoA, -3.5, 3.5)], [Cd = 0.02] as long as
    the Reynolds flag is cleared. *)
Theorem flat_plate_uncorrected
    (interp2d : option (list R) -> option (list R) ->
                option (list (list R)) -> result (R -> option R -> result R))
    (self : Aerodynamics) (AoA Re_ref Re M : R)
    (x : option R) (r_R : option (list R))
    (Cl_database Cd_database : option (list (list R)))
    (a0 cla clas clmax clmin clincr cdmin clcd dcd mcrit rexp : option R) :
  aero_method self = "flat_plate"%string ->
  0 <= M < 1 ->
  Rey_corr self = false ->
  (M_corr self = false ->
   eval_coeffs interp2d self AoA Re_ref Re M x r_R Cl_database Cd_database
     a0 cla clas clmax clmin clincr cdmin clcd dcd mcrit rexp
   = Ok (clamp (2 * PI * AoA / sqrt (1 - M ^ 2)) (-3.5) 3.5, PyFloat 0.0200))
  /\
  (M = 0 ->
   eval_coeffs interp2d self AoA Re_ref Re M x r_R Cl_database Cd_database
     a0 cla clas clmax clmin clincr cdmin clcd dcd mcrit rexp
   = Ok (clamp (2 * PI * AoA) (-3.5) 3.5, PyFloat 0.0200)).
Proof.
  intros Hm HM Hrc.
  rewrite flat_plate_value by assumption. rewrite Hrc.
  split.
  - intros ->. apply post_processing_off.
  - intros ->. pose proof (sqrt_compl_pos 0 HM) as Hs.
    unfold post_processing. cbn [fst snd bind].
    rewrite sqrt_compl_0.
    replace (2 * PI * AoA / 1) with (2 * PI * AoA) by lra.
    destruct (M_corr self); cbn [bind]; [|reflexivity].
    rewrite math_sqrt_ok by lra. cbn [bind]. rewrite sqrt_compl_0.
    rewrite truediv_ok by lra. cbn [bind].
    replace (clamp (2 * PI * AoA) (-3.5) 3.5 / 1)
      with (clamp (2 * PI * AoA) (-3.5) 3.5) by lra.
    reflexivity.
Qed.

Lemma flat_plate_uncorrected_witness :
  0 <= 0.6 < 1 /\
  eval_coeffs_positional (flat_plate_evaluator false false) 0.1 1e+6 2e+6 0.6
  = Ok (clamp (2 * PI * 0.1 / sqrt (1 - 0.6 ^ 2)) (-3.5) 3.5, PyFloat 0.0200).
Proof.
  split; [lra|].
  apply (proj1 (flat_plate_uncorrected interp2d_linear
                  (flat_plate_evaluator false false) 0.1 1e+6 2e+6 0.6
                  None None None None
                  None None None None None None None None None None None
                  eq_refl ltac:(lra) eq_refl)).
  reflexivity.
Defined.

(** C10: under the flat-plate model with the Mach flag set and
    [0 < M < 1], the lift coefficient is clamped to [+-3.5] first and divided
    by [sqrt(1 - M^2)] afterwards, so the Mach factor enters twice; at
    [AoA = 1] the returned value is [3.5 / sqrt(1 - M^2)], which exceeds
    [3.5].  (With the Reynolds flag set, [Re] and [Re_ref] are taken
    non-zero, so that the drag scaling raises nothing.) *)
Theorem flat_plate_mach_flag_after_clamp
    (interp2d : option (list R) -> option (list R) ->
                option (list (list R)) -> result (R -> option R -> result R))
    (self : Aerodynamics) (Re_ref Re M : R)
    (x : option R) (r_R : option (list R))
    (Cl_database Cd_database : option (list (list R)))
    (a0 cla clas clmax clmin clincr cdmin clcd dcd mcrit rexp : option R) :
  aero_method self = "flat_plate"%string ->
  M_corr self = true ->
  0 < M < 1 ->
  (Rey_corr self = true -> Re <> 0 /\ Re_ref <> 0) ->
  (forall AoA, exists cd,
     eval_coeffs interp2d self AoA Re_ref Re M x r_R Cl_database Cd_database
       a0 cla clas clmax clmin clincr cdmin clcd dcd mcrit rexp
     = Ok (clamp (2 * PI * AoA / sqrt (1 - M ^ 2)) (-3.5) 3.5
           / sqrt (1 - M ^ 2), cd))
  /\
  (exists AoA cd,
     eval_coeffs interp2d self AoA Re_ref Re M x r_R Cl_database Cd_database
       a0 cla clas clmax clmin clincr cdmin clcd dcd mcrit rexp
     = Ok (3.5 / sqrt (1 - M ^ 2), cd)
     /\ 3.5 < 3.5 / sqrt (1 - M ^ 2)).
Proof.
  intros Hm Hmc HM Hrc.
  assert (HM' : 0 <= M < 1) by lra.
  pose proof (sqrt_compl_pos M HM') as Hs.
  pose proof (sqrt_compl_lt_1 M HM) as Hs1.
  assert (Hall : forall AoA, exists cd,
     eval_coeffs interp2d self AoA Re_ref Re M x r_R Cl_database Cd_database
       a0 cla clas clmax clmin clincr cdmin clcd dcd mcrit rexp
     = Ok (clamp (2 * PI * AoA / sqrt (1 - M ^ 2)) (-3.5) 3.5
           / sqrt (1 - M ^ 2), cd)).
  { intros AoA. rewrite flat_plate_value by assumption.
    destruct (post_processing_lift (M_corr self) (Rey_corr self) Re_ref Re M
                (clamp (2 * PI * AoA / sqrt (1 - M ^ 2)) (-3.5) 3.5)
                (PyFloat 0.0200) HM' Hrc) as [cd Hcd].
    exists cd. rewrite Hcd, Hmc. reflexivity. }
  split; [exact Hall|].
  destruct (Hall 1) as [cd Hcd]. exists 1, cd.
  assert (Hq : 3.5 <= 2 * PI * 1 / sqrt (1 - M ^ 2)).
  { pose proof PI2_3_2 as Hpi.
    apply Rle_trans with (2 * PI * 1); [lra|].
    unfold Rdiv. rewrite <- (Rmult_1_r (2 * PI * 1)) at 1.
    apply Rmult_le_compat_l; [lra|].
    rewrite <- Rinv_1 at 1. apply Rinv_le_contravar; lra. }
  split.
  - rewrite Hcd. do 2 f_equal. unfold clamp.
    rewrite (Rmin_right _ 3.5) by exact Hq.
    rewrite Rmax_right by lra. reflexivity.
  - unfold Rdiv. rewrite <- (Rmult_1_r 3.5) at 1.
    apply Rmult_lt_compat_l; [lra|].
    rewrite <- Rinv_1 at 1. apply Rinv_lt_contravar; lra.
Qed.

Lemma flat_plate_mach_flag_after_clamp_witness :
  0 < 0.6 < 1 /\
  exists AoA cd,
    eval_coeffs_positional (flat_plate_evaluator true false) AoA 1e+6 2e+6 0.6
    = Ok (3.5 / sqrt (1 - 0.6 ^ 2), cd)
    /\ 3.5 < 3.5 / sqrt (1 - 0.6 ^ 2).
Proof.
  split; [lra|].
  apply (proj2 (flat_plate_mach_flag_after_clamp interp2d_linear
                  (flat_plate_evaluator true false) 1e+6 2e+6 0.6
                  None None None None
                  None None None None None None None None None None None
                  eq_refl eq_refl ltac:(lra)
                  ltac:(intros H; discriminate H))).
Defined.

(** ** The correction flags *)

Lemma without_corrections_method (self : Aerodynamics) :
  aero_method (without_corrections self) = aero_method self.
Proof. reflexivity. Qed.

(** The post-processing on a float drag coefficient, each flag with the
    condition under which its operation is defined. *)
Lemma post_processing_flags (mc rc : bool) (Re_ref Re M cl cd : R) :
  (mc = true -> 0 <= M < 1) ->
  (rc = true -> 0 < Re /\ 0 < Re_ref) ->
  post_processing mc rc Re_ref Re M (cl, PyFloat cd)
  = Ok (if mc then cl / sqrt (1 - M ^ 2) else cl,
        PyFloat (if rc then cd * Rpower (Re / Re_ref) (reynolds_f Re)
                 else cd)).
Proof.
  intros Hmc Hrc. unfold post_processing. cbn [fst snd].
  assert (Hcd : (if rc
                 then q <- truediv Re Re_ref ;;
                      k <- float_pow q (reynolds_f Re) ;;
                      Ok (num_mul (PyFloat cd) k)
                 else Ok (PyFloat cd))
                = Ok (PyFloat (if rc
                               then cd * Rpower (Re / Re_ref) (reynolds_f Re)
                               else cd))).
  { destruct rc; [|reflexivity].
    destruct (Hrc eq_refl) as [HRe HRef].
    assert (Hq : 0 < Re / Re_ref) by (apply Rdiv_lt_0_compat; assumption).
    rewrite truediv_ok by lra. cbn [bind].
    rewrite float_pow_pos by (try exact Hq; apply reynolds_f_nonzero).
    reflexivity. }
  rewrite Hcd. cbn [bind].
  destruct mc; cbn [bind]; [|reflexivity].
  pose proof (sqrt_compl_pos M (Hmc eq_refl)) as Hs.
  destruct (Hmc eq_refl) as [H0 H1].
  rewrite math_sqrt_ok by nra. cbn [bind].
  rewrite truediv_ok by lra. reflexivity.
Qed.

(** C6: what [eval_coeffs] returns under each method.  Under the flat-plate
    and the xFoil methods the drag coefficient of the branch ([0.02], or the
    interpolated value) is multiplied by [(Re/Re_ref)^f] when the Reynolds
    flag is set, and the lift coefficient of the branch is divided by
    [sqrt(1 - M^2)] when the Mach flag is set, with [f = -0.4] below [1e5],
    [-1] from [1e5] and below [1e6], [-0.15] from [1e6] (so [-0.4] at 99999
    and [-1] at 100000); under the xRotor method the pair returned is that
    of the model, the same for every setting of the flags.  Errors
    included, a call is the call with both flags cleared followed by the
    post-processing (under xFoil with the Mach flag, for
    [1 - M^2 <> 0]). *)
Theorem corrections_by_method
    (interp2d : option (list R) -> option (list R) ->
                option (list (list R)) -> result (R -> option R -> result R))
    (self : Aerodynamics) (AoA Re_ref Re M : R)
    (x : option R) (r_R : option (list R))
    (Cl_database Cd_database : option (list (list R)))
    (a0 cla clas clmax clmin clincr cdmin clcd dcd mcrit rexp : option R) :
  (aero_method self = "flat_plate"%string ->
   0 <= M < 1 ->
   (Rey_corr self = true -> 0 < Re /\ 0 < Re_ref) ->
   eval_coeffs interp2d self AoA Re_ref Re M x r_R Cl_database Cd_database
     a0 cla clas clmax clmin clincr cdmin clcd dcd mcrit rexp
   = Ok (if M_corr self
         then clamp (2 * PI * AoA / sqrt (1 - M ^ 2)) (-3.5) 3.5
              / sqrt (1 - M ^ 2)
         else clamp (2 * PI * AoA / sqrt (1 - M ^ 2)) (-3.5) 3.5,
         PyFloat (if Rey_corr self
                  then 0.0200 * Rpower (Re / Re_ref) (reynolds_f Re)
                  else 0.0200)))
  /\
  (aero_method self = "xFoil"%string ->
   forall av xq ys zl zd f_cl f_cd (l d : R),
     alpha_vec self = Some av -> x = Some xq -> r_R = Some ys ->
     Cl_database = Some zl -> Cd_database = Some zd ->
     interp2d (Some av) (Some ys) (Some zl) = Ok f_cl ->
     interp2d (Some av) (Some ys) (Some zd) = Ok f_cd ->
     f_cl AoA (Some xq) = Ok l -> f_cd AoA (Some xq) = Ok d ->
     (M_corr self = true -> 0 <= M < 1) ->
     (Rey_corr self = true -> 0 < Re /\ 0 < Re_ref) ->
     eval_coeffs interp2d self AoA Re_ref Re M x r_R Cl_database Cd_database
       a0 cla clas clmax clmin clincr cdmin clcd dcd mcrit rexp
     = Ok (if M_corr self then l / sqrt (1 - M ^ 2) else l,
           PyFloat (if Rey_corr self
                    then d * Rpower (Re / Re_ref) (reynolds_f Re)
                    else d)))
  /\
  (aero_method self = "xRotor"%string ->
   forall (p : EmpiricalAirfoilParameters) (rcorr : pynum),
     0 <= M < 1 -> Cl_alpha p <> 0 -> Cl_incr_to_stall p <> 0 ->
     reynolds_RCORR Re_ref Re (Re_scaling_exp p) = Ok rcorr ->
     eval_coeffs interp2d self AoA Re_ref Re M x r_R Cl_database Cd_database
       (Some (alpha_0_lift p)) (Some (Cl_alpha p)) (Some (Cl_alpha_stall p))
       (Some (Cl_max p)) (Some (Cl_min p)) (Some (Cl_incr_to_stall p))
       (Some (Cd_min p)) (Some (Cl_at_cd_min p)) (Some (dCd_dCl2 p))
       (Some (Mach_crit p)) (Some (Re_scaling_exp p))
     = Ok (Cl_of p AoA M, Cd_of p AoA M rcorr))
  /\
  ((aero_method self = "flat_plate"%string \/
    (aero_method self = "xFoil"%string /\
     (M_corr self = true -> 1 - M ^ 2 <> 0))) ->
   eval_coeffs interp2d self AoA Re_ref Re M x r_R Cl_database Cd_database
     a0 cla clas clmax clmin clincr cdmin clcd dcd mcrit rexp
   = (r <- eval_coeffs interp2d (without_corrections self) AoA Re_ref Re M
             x r_R Cl_database Cd_database
             a0 cla clas clmax clmin clincr cdmin clcd dcd mcrit rexp ;;
      post_processing (M_corr self) (Rey_corr self) Re_ref Re M r))
  /\
  (aero_method self = "xRotor"%string ->
   eval_coeffs interp2d self AoA Re_ref Re M x r_R Cl_database Cd_database
     a0 cla clas clmax clmin clincr cdmin clcd dcd mcrit rexp
   = eval_coeffs interp2d (without_corrections self) AoA Re_ref Re M
       x r_R Cl_database Cd_database
       a0 cla clas clmax clmin clincr cdmin clcd dcd mcrit rexp)
  /\
  (forall (mc rc : bool) (cl cd : R),
     0 <= M < 1 -> 0 < Re -> 0 < Re_ref ->
     post_processing mc rc Re_ref Re M (cl, PyFloat cd)
     = Ok (if mc then cl / sqrt (1 - M ^ 2) else cl,
           PyFloat (if rc then cd * Rpower (Re / Re_ref) (reynolds_f Re)
                    else cd)))
  /\
  ((Re < 1e+5 -> reynolds_f Re = -0.4) /\
   (1e+5 <= Re < 1e+6 -> reynolds_f Re = -1) /\
   (1e+6 <= Re -> reynolds_f Re = -0.15))
  /\
  reynolds_f 99999 = -0.4 /\ reynolds_f 100000 = -1.
Proof.
  split; [|split; [|split; [|split; [|split; [|split; [|split; [|split]]]]]]].
  - intros Hm HM Hrc. rewrite flat_plate_value by assumption.
    apply post_processing_flags; [intros _; exact HM | exact Hrc].
  - intros Hm av xq ys zl zd f_cl f_cd l d Hav -> -> -> -> Hfl Hfd Hl Hd
      Hmc Hrc.
    rewrite eval_coeffs_xFoil by exact Hm.
    rewrite Hav, Hfl, Hfd. cbn [bind]. rewrite Hl, Hd. cbn [bind].
    apply post_processing_flags; assumption.
  - intros Hm p rcorr HM Ha Hi Hr.
    rewrite eval_coeffs_xRotor by exact Hm.
    pose proof (xRotor_eval_ok p AoA Re_ref Re M rcorr HM Ha Hi Hr) as E.
    unfold xRotor_eval in E. rewrite E. reflexivity.
  - intros [Hm|[Hm _]].
    + rewrite !eval_coeffs_flat_plate
        by (try rewrite without_corrections_method; exact Hm).
      cbn [without_corrections M_corr Rey_corr].
      destruct (math_sqrt (1 - M ^ 2)) as [s|e]; [|reflexivity]. cbn [bind].
      destruct (truediv (2 * PI * AoA) s) as [q|e]; [|reflexivity].
      cbn [bind]. rewrite post_processing_off. reflexivity.
    + rewrite !eval_coeffs_xFoil
        by (try rewrite without_corrections_method; exact Hm).
      cbn [without_corrections M_corr Rey_corr alpha_vec].
      match goal with
      | |- bind ?m _ = _ => destruct m as [r|e]; [|reflexivity]
      end.
      cbn [bind]. rewrite post_processing_off. reflexivity.
  - intros Hm.
    rewrite !eval_coeffs_xRotor
      by (try rewrite without_corrections_method; exact Hm).
    reflexivity.
  - intros mc rc cl cd. apply post_processing_value.
  - apply reynolds_f_cases.
  - apply (proj1 (reynolds_f_cases 99999)). lra.
  - apply (proj1 (proj2 (reynolds_f_cases 100000))). lra.
Qed.

Lemma corrections_by_method_witness :
  0 <= 0.6 < 1 /\
  eval_coeffs_positional (flat_plate_evaluator true true) 0.1 1e+6 2e+6 0.6
  = Ok (clamp (2 * PI * 0.1 / sqrt (1 - 0.6 ^ 2)) (-3.5) 3.5
        / sqrt (1 - 0.6 ^ 2),
        PyFloat (0.0200 * Rpower (2e+6 / 1e+6) (reynolds_f 2e+6))).
Proof.
  split; [lra|].
  apply (proj1 (corrections_by_method interp2d_linear
                  (flat_plate_evaluator true true) 0.1 1e+6 2e+6 0.6
                  None None None None
                  None None None None None None None None None None None)).
  - reflexivity.
  - lra.
  - intros _. split; lra.
Defined.

(** ** Missing parameters and unknown methods *)

Lemma xRotor_branch_missing (AoA Re_ref Re M : R)
    (a0 cla clas clmax clmin clincr cdmin clcd dcd mcrit rexp : option R) :
  some_missing
    [cla; a0; clas; clmax; clmin; clincr; cdmin; clcd; dcd; mcrit; rexp] ->
  xRotor_branch AoA Re_ref Re M
    a0 cla clas clmax clmin clincr cdmin clcd dcd mcrit rexp
  = Raise ValueError.
Proof.
  intros (v & Hin & ->).
  destruct cla, a0, clas, clmax, clmin, clincr, cdmin, clcd, dcd, mcrit, rexp;
    try reflexivity.
  exfalso. simpl in Hin.
  repeat (destruct Hin as [Hin|Hin]; [discriminate Hin|]). exact Hin.
Qed.

(** C7, as stated, fails: the constructor takes no airfoil parameter and
    succeeds; the evaluation call is reached with all eleven parameters
    missing, and it is that call which raises. *)
Lemma construction_accepts_missing_parameters :
  Aerodynamics_init "xRotor" None false false
  = Ok (xRotor_evaluator false false)
  /\ eval_coeffs_positional (xRotor_evaluator false false) 0.1 1e+6 1e+6 0.5
     = Raise ValueError.
Proof.
  split; [reflexivity|].
  unfold eval_coeffs_positional. rewrite eval_coeffs_xRotor by reflexivity.
  reflexivity.
Qed.

(** C7, amended: constructing an xRotor evaluator always succeeds, whatever
    parameters the later calls will supply; when any of the eleven
    parameters is missing in a call of [eval_coeffs], that call raises
    [ValueError] before computing anything, for all its other arguments. *)
Theorem missing_parameters_rejected_at_call
    (interp2d : option (list R) -> option (list R) ->
                option (list (list R)) -> result (R -> option R -> result R))
    (alpha_vec_xFoil : option (list R)) (mc rc : bool)
    (AoA Re_ref Re M : R)
    (x : option R) (r_R : option (list R))
    (Cl_database Cd_database : option (list (list R)))
    (a0 cla clas clmax clmin clincr cdmin clcd dcd mcrit rexp : option R) :
  some_missing
    [cla; a0; clas; clmax; clmin; clincr; cdmin; clcd; dcd; mcrit; rexp] ->
  exists self,
    Aerodynamics_init "xRotor" alpha_vec_xFoil mc rc = Ok self /\
    eval_coeffs interp2d self AoA Re_ref Re M x r_R Cl_database Cd_database
      a0 cla clas clmax clmin clincr cdmin clcd dcd mcrit rexp
    = Raise ValueError.
Proof.
  intros Hmiss. eexists. split; [reflexivity|].
  rewrite eval_coeffs_xRotor by reflexivity.
  rewrite xRotor_branch_missing by exact Hmiss. reflexivity.
Qed.

Lemma missing_parameters_rejected_at_call_witness :
  exists self,
    Aerodynamics_init "xRotor" None false false = Ok self /\
    eval_coeffs interp2d_linear self 0.1 1e+6 1e+6 0.5 None None None None
      (Some 0) (Some 6.28) (Some 0.100) (Some 1.5) (Some (-0.5)) (Some 0.100)
      (Some 0.0130) (Some 0.500) (Some 0.004) (Some 0.8) None
    = Raise ValueError.
Proof.
  apply (missing_parameters_rejected_at_call interp2d_linear None false false
           0.1 1e+6 1e+6 0.5 None None None None).
  exists None. split; [|reflexivity].
  simpl. do 10 right. left. reflexivity.
Defined.

(** C8 at the code: for a method outside the three known ones,
    [eval_lift_properties] called with a Mach number raises [ValueError]
    (called without one, it raises [TypeError] at [M > 0.7]), whereas
    [eval_coeffs], which has no final [else], raises [UnboundLocalError]
    when it first reads [drag_coeff] or [lift_coeff]. *)
Theorem unknown_method_errors
    (interp2d : option (list R) -> option (list R) ->
                option (list (list R)) -> result (R -> option R -> result R))
    (np_interp : R -> list R -> list R -> R)
    (self : Aerodynamics) (AoA Re_ref Re M : R)
    (x : option R) (r_R : option (list R))
    (Cl_database Cd_database : option (list (list R)))
    (a0 cla clas clmax clmin clincr cdmin clcd dcd mcrit rexp : option R) :
  aero_method self <> "flat_plate"%string ->
  aero_method self <> "xFoil"%string ->
  aero_method self <> "xRotor"%string ->
  eval_lift_properties interp2d np_interp self Cl_database r_R x (Some M)
    a0 cla
  = Raise ValueError
  /\
  eval_lift_properties interp2d np_interp self Cl_database r_R x None
    a0 cla
  = Raise TypeError
  /\
  eval_coeffs interp2d self AoA Re_ref Re M x r_R Cl_database Cd_database
    a0 cla clas clmax clmin clincr cdmin clcd dcd mcrit rexp
  = Raise UnboundLocalError.
Proof.
  intros H1 H2 H3. split; [|split].
  - unfold eval_lift_properties. cbn [bind].
    apply String.eqb_neq in H1, H2, H3. rewrite H1, H2, H3. reflexivity.
  - reflexivity.
  - apply eval_coeffs_unknown; assumption.
Qed.

Lemma unknown_method_errors_witness :
  eval_lift_properties interp2d_linear np_interp_linear
    {| aero_method := "xfoil"; M_corr := false; Rey_corr := false;
       alpha_vec := None |} None None None (Some 0.5) None None
  = Raise ValueError
  /\
  eval_lift_properties interp2d_linear np_interp_linear
    {| aero_method := "xfoil"; M_corr := false; Rey_corr := false;
       alpha_vec := None |} None None None None None None
  = Raise TypeError
  /\
  eval_coeffs_positional
    {| aero_method := "xfoil"; M_corr := false; Rey_corr := false;
       alpha_vec := None |} 0.1 1e+6 1e+6 0.5
  = Raise UnboundLocalError.
Proof.
  apply (unknown_method_errors interp2d_linear np_interp_linear
           {| aero_method := "xfoil"; M_corr := false; Rey_corr := false;
              alpha_vec := None |} 0.1 1e+6 1e+6 0.5);
    cbn [aero_method]; intros H; discriminate H.
Defined.

(** ** Interpolation at the nodes of the table *)

Lemma increasing_nth_lt (x0 : R) (xs : list R) (j : nat) :
  Forall (fun x1 => x0 < x1) xs -> (j < length xs)%nat -> x0 < nth j xs 0.
Proof.
  intros Hall Hj. rewrite Forall_forall in Hall.
  apply Hall. apply nth_In. exact Hj.
Qed.

(** On an increasing axis the interpolant passes through every point. *)
Lemma interp1_node (xs : list R) :
  increasing xs ->
  forall (vs : list R) (j : nat),
    length vs = length xs -> (j < length xs)%nat ->
    interp1 xs vs (nth j xs 0) = nth j vs 0.
Proof.
  induction xs as [|x0 xs IH]; intros Hinc vs j Hlen Hj.
  - simpl in Hj. lia.
  - destruct vs as [|v0 vs]; [discriminate Hlen|].
    destruct Hinc as [Hall Hinc].
    injection Hlen as Hlen.
    destruct j as [|j].
    + cbn [nth interp1].
      destruct (Rle_dec x0 x0) as [_|N]; [reflexivity | lra].
    + assert (Hj' : (j < length xs)%nat) by (simpl in Hj; lia).
      pose proof (increasing_nth_lt x0 xs j Hall Hj') as Hlt.
      cbn [nth]. cbn [interp1].
      destruct (Rle_dec (nth j xs 0) x0) as [L|_]; [lra|].
      destruct xs as [|x1 xs']; [simpl in Hj'; lia|].
      destruct vs as [|v1 vs']; [discriminate Hlen|].
      destruct (Rlt_dec (nth j (x1 :: xs') 0) x1) as [L|_].
      * exfalso. destruct j as [|j'].
        -- simpl in L. lra.
        -- destruct Hinc as [Hall1 _].
           assert (Hj'' : (j' < length xs')%nat) by (simpl in Hj'; lia).
           pose proof (increasing_nth_lt x1 xs' j' Hall1 Hj'').
           simpl in L. lra.
      * apply IH; assumption.
Qed.

Lemma grid_shape_rows (xs ys : list R) (z : list (list R)) :
  grid_shape xs ys z = true ->
  length z = length ys /\
  forall i, (i < length z)%nat -> length (nth i z []) = length xs.
Proof.
  unfold grid_shape. intros H. apply andb_prop in H. destruct H as [H1 H2].
  apply Nat.eqb_eq in H1. split; [exact H1|].
  intros i Hi. rewrite forallb_forall in H2.
  apply Nat.eqb_eq. apply H2. apply nth_In. exact Hi.
Qed.

(** At a node of the grid the bilinear interpolant is the stored value. *)
Lemma bilinear_node (xs ys : list R) (z : list (list R)) (i j : nat) :
  increasing xs -> increasing ys ->
  grid_shape xs ys z = true ->
  (i < length ys)%nat -> (j < length xs)%nat ->
  bilinear xs ys z (nth j xs 0) (nth i ys 0) = nth j (nth i z []) 0.
Proof.
  intros Hx Hy Hshape Hi Hj.
  destruct (grid_shape_rows xs ys z Hshape) as [Hlen Hrows].
  unfold bilinear.
  rewrite interp1_node; [| exact Hy | rewrite length_map; exact Hlen | exact Hi].
  rewrite (nth_indep _ 0 ((fun row => interp1 xs row (nth j xs 0)) []))
    by (rewrite length_map, Hlen; exact Hi).
  rewrite (map_nth (fun row => interp1 xs row (nth j xs 0)) z [] i).
  apply interp1_node; [exact Hx | | exact Hj].
  apply Hrows. rewrite Hlen. exact Hi.
Qed.

(** The xFoil branch at a node, before the flags are looked at. *)
Lemma xFoil_node_value (self : Aerodynamics) (xs ys : list R)
    (zl zd : list (list R)) (i j : nat) (Re_ref Re M : R)
    (a0 cla clas clmax clmin clincr cdmin clcd dcd mcrit rexp : option R) :
  aero_method self = "xFoil"%string ->
  alpha_vec self = Some xs ->
  increasing xs -> increasing ys ->
  grid_shape xs ys zl = true -> grid_shape xs ys zd = true ->
  (i < length ys)%nat -> (j < length xs)%nat ->
  eval_coeffs interp2d_linear self (nth j xs 0) Re_ref Re M
    (Some (nth i ys 0)) (Some ys) (Some zl) (Some zd)
    a0 cla clas clmax clmin clincr cdmin clcd dcd mcrit rexp
  = post_processing (M_corr self) (Rey_corr self) Re_ref Re M
      (nth j (nth i zl []) 0, PyFloat (nth j (nth i zd []) 0)).
Proof.
  intros Hm Hav Hx Hy Hl Hd Hi Hj.
  rewrite eval_coeffs_xFoil by exact Hm.
  rewrite Hav. unfold interp2d_linear. rewrite Hl, Hd. cbn [bind].
  rewrite !bilinear_node by assumption. reflexivity.
Qed.

(** C9, as stated, fails: on the example table with the Mach flag set and
    [M = 0.6], the query at the node (angle 0, span 0.2), where
    [Cl = 0.2] is stored, returns [Cl = 0.2 / 0.8 = 0.25]. *)
Lemma node_lookup_altered_by_mach_flag :
  eval_coeffs_example_table true false 0 1e+6 1e+6 0.6 0.2
  = Ok (0.25, PyFloat 0.010)
  /\ eval_coeffs_example_table true false 0 1e+6 1e+6 0.6 0.2
     <> Ok (0.2, PyFloat 0.010).
Proof.
  assert (E : eval_coeffs_example_table true false 0 1e+6 1e+6 0.6 0.2
              = Ok (0.25, PyFloat 0.010)).
  { unfold eval_coeffs_example_table.
    rewrite (xFoil_node_value (xFoil_evaluator example_alpha_vec true false)
               example_alpha_vec example_r_R example_Cl_database
               example_Cd_database 0 0);
      try reflexivity;
      try (cbn [example_alpha_vec example_r_R increasing];
           repeat constructor; lra);
      try (simpl; lia).
    cbn [xFoil_evaluator M_corr Rey_corr example_Cl_database
         example_Cd_database nth].
    rewrite post_processing_value by lra.
    replace (1 - 0.6 ^ 2) with (0.8 * 0.8) by lra.
    rewrite sqrt_square by lra.
    do 2 f_equal. lra. }
  split; [exact E|]. rewrite E. intros H. injection H as H. lra.
Qed.

(** C9, amended: on a table with strictly increasing axes and grids of the
    axes' shape, a query at a grid node yields the stored [Cl] and [Cd]
    passed through the post-processing of the correction flags (with the
    Mach flag set, for [1 - M^2 <> 0]); with both flags cleared,
    [eval_coeffs] returns exactly the stored values. *)
Theorem node_lookup_exact_without_corrections
    (self : Aerodynamics) (xs ys : list R)
    (zl zd : list (list R)) (i j : nat) (Re_ref Re M : R)
    (a0 cla clas clmax clmin clincr cdmin clcd dcd mcrit rexp : option R) :
  aero_method self = "xFoil"%string ->
  alpha_vec self = Some xs ->
  increasing xs -> increasing ys ->
  grid_shape xs ys zl = true -> grid_shape xs ys zd = true ->
  (i < length ys)%nat -> (j < length xs)%nat ->
  ((M_corr self = true -> 1 - M ^ 2 <> 0) ->
   eval_coeffs interp2d_linear self (nth j xs 0) Re_ref Re M
     (Some (nth i ys 0)) (Some ys) (Some zl) (Some zd)
     a0 cla clas clmax clmin clincr cdmin clcd dcd mcrit rexp
   = post_processing (M_corr self) (Rey_corr self) Re_ref Re M
       (nth j (nth i zl []) 0, PyFloat (nth j (nth i zd []) 0)))
  /\
  (M_corr self = false -> Rey_corr self = false ->
   eval_coeffs interp2d_linear self (nth j xs 0) Re_ref Re M
     (Some (nth i ys 0)) (Some ys) (Some zl) (Some zd)
     a0 cla clas clmax clmin clincr cdmin clcd dcd mcrit rexp
   = Ok (nth j (nth i zl []) 0, PyFloat (nth j (nth i zd []) 0))).
Proof.
  intros Hm Hav Hx Hy Hl Hd Hi Hj.
  pose proof (xFoil_node_value self xs ys zl zd i j Re_ref Re M
                a0 cla clas clmax clmin clincr cdmin clcd dcd mcrit rexp
                Hm Hav Hx Hy Hl Hd Hi Hj) as E.
  split; [intros _; exact E|].
  intros Hmc Hrc. rewrite E, Hmc, Hrc. apply post_processing_off.
Qed.

Lemma example_axes_increasing :
  increasing example_alpha_vec /\ increasing example_r_R.
Proof.
  cbn [example_alpha_vec example_r_R increasing].
  repeat constructor; lra.
Defined.

Lemma node_lookup_exact_without_corrections_witness :
  eval_coeffs_example_table false false 5 1e+6 2e+6 0.6 0.2
  = Ok (0.7, PyFloat 0.020).
Proof.
  apply (proj2 (node_lookup_exact_without_corrections
                  (xFoil_evaluator example_alpha_vec false false)
                  example_alpha_vec example_r_R
                  example_Cl_database example_Cd_database 0 1
                  1e+6 2e+6 0.6
                  None None None None None None None None None None None
                  eq_refl eq_refl
                  (proj1 example_axes_increasing)
                  (proj2 example_axes_increasing)
                  eq_refl eq_refl
                  ltac:(simpl; lia) ltac:(simpl; lia)));
    reflexivity.
Defined.

(** ** The xRotor model: lift *)

Lemma reynolds_RCORR_defined (Re_ref Re e : R) :
  Re <= 0 \/ Re_ref <> 0 -> exists rc, reynolds_RCORR Re_ref Re e = Ok rc.
Proof.
  intros H. unfold reynolds_RCORR.
  destruct (Rle_dec Re 0) as [L|N]; [eexists; reflexivity|].
  destruct H as [H|H]; [lra|].
  rewrite truediv_ok by exact H. cbn [bind].
  apply float_pow_defined. unfold Rdiv.
  apply Rmult_integral_contrapositive_currified;
    [lra | apply Rinv_neq_0_compat; exact H].
Qed.

Lemma reynolds_RCORR_float (Re_ref Re e : R) :
  Re <= 0 \/ 0 < Re_ref ->
  exists b, reynolds_RCORR Re_ref Re e = Ok (PyFloat b).
Proof.
  intros H. unfold reynolds_RCORR.
  destruct (Rle_dec Re 0) as [L|N]; [eexists; reflexivity|].
  destruct H as [H|H]; [lra|].
  rewrite truediv_ok by lra. cbn [bind].
  assert (Hq : 0 < Re / Re_ref) by (apply Rdiv_lt_0_compat; lra).
  unfold float_pow.
  destruct (Req_dec_T e 0); [eexists; reflexivity|].
  destruct (Req_dec_T (Re / Re_ref) 0); [lra|].
  destruct (Rlt_dec 0 (Re / Re_ref)); [eexists; reflexivity | lra].
Qed.

Lemma reynolds_RCORR_zero_reference (Re e : R) :
  0 < Re -> reynolds_RCORR 0 Re e = Raise ZeroDivisionError.
Proof.
  intros H. unfold reynolds_RCORR.
  destruct (Rle_dec Re 0) as [L|N]; [lra|].
  rewrite truediv_zero. reflexivity.
Qed.

(** A fault in the Reynolds scaling ends the branch, the lift coefficient
    being computed already. *)
Lemma xRotor_eval_reynolds_fault (p : EmpiricalAirfoilParameters)
    (AoA Re_ref Re M : R) (e : exn) :
  0 <= M < 1 ->
  Cl_alpha p <> 0 ->
  Cl_incr_to_stall p <> 0 ->
  reynolds_RCORR Re_ref Re (Re_scaling_exp p) = Raise e ->
  xRotor_eval p AoA Re_ref Re M = Raise e.
Proof.
  intros HM Ha Hi Hr.
  pose proof (sqrt_compl_pos M HM) as Hs.
  unfold xRotor_eval, xRotor_branch.
  rewrite math_sqrt_ok by nra. cbn [bind].
  rewrite truediv_ok by lra. cbn [bind].
  rewrite !(truediv_ok _ (Cl_incr_to_stall p)) by exact Hi. cbn [bind].
  rewrite (truediv_ok (1 + _) (1 + _))
    by (match goal with |- 1 + exp ?b <> 0 => pose proof (exp_pos b) end; lra).
  cbn [bind].
  rewrite math_log_ok by apply limiter_ratio_pos. cbn [bind].
  rewrite !(truediv_ok _ (Cl_alpha p)) by exact Ha. cbn [bind].
  rewrite Hr. reflexivity.
Qed.

(** [eval_coeffs] with the eleven parameters supplied, under the xRotor
    method. *)
Lemma eval_coeffs_xRotor_supplied
    (interp2d : option (list R) -> option (list R) ->
                option (list (list R)) -> result (R -> option R -> result R))
    (self : Aerodynamics) (AoA Re_ref Re M : R)
    (x : option R) (r_R : option (list R))
    (Cl_database Cd_database : option (list (list R)))
    (p : EmpiricalAirfoilParameters) :
  aero_method self = "xRotor"%string ->
  eval_coeffs interp2d self AoA Re_ref Re M x r_R Cl_database Cd_database
    (Some (alpha_0_lift p)) (Some (Cl_alpha p)) (Some (Cl_alpha_stall p))
    (Some (Cl_max p)) (Some (Cl_min p)) (Some (Cl_incr_to_stall p))
    (Some (Cd_min p)) (Some (Cl_at_cd_min p)) (Some (dCd_dCl2 p))
    (Some (Mach_crit p)) (Some (Re_scaling_exp p))
  = (L <- xRotor_eval p AoA Re_ref Re M ;;
     Ok (lift_coeff L, drag_coeff L)).
Proof.
  intros Hm. rewrite eval_coeffs_xRotor by exact Hm. reflexivity.
Qed.

(** C1, as stated, fails: with the parameters of the usage notes,
    [M = 0.5], [Re = 1e6] and a reference Reynolds number of zero, every
    hypothesis of the claim holds and the call raises [ZeroDivisionError] at
    line 172 instead of returning a lift coefficient. *)
Lemma xRotor_zero_reference_reynolds :
  (0 <= 0.5 < 1 /\ Cl_alpha usage_parameters <> 0 /\
   Cl_incr_to_stall usage_parameters <> 0)
  /\ eval_coeffs_with (xRotor_evaluator false false) 0.1 0 1e+6 0.5
       usage_parameters
     = Raise ZeroDivisionError.
Proof.
  assert (H : 0 <= 0.5 < 1 /\ Cl_alpha usage_parameters <> 0 /\
              Cl_incr_to_stall usage_parameters <> 0)
    by (cbn [usage_parameters Cl_alpha Cl_incr_to_stall]; lra).
  split; [exact H|]. destruct H as (HM & Ha & Hi).
  unfold eval_coeffs_with.
  rewrite eval_coeffs_xRotor_supplied by reflexivity.
  rewrite (xRotor_eval_reynolds_fault usage_parameters 0.1 0 1e+6 0.5
             ZeroDivisionError HM Ha Hi).
  - reflexivity.
  - apply reynolds_RCORR_zero_reference. lra.
Qed.

(** C1, amended: under the xRotor method with all eleven parameters
    supplied, [0 <= M < 1], [Cl_alpha <> 0], [Cl_incr_to_stall <> 0] and a
    Reynolds scaling that can be computed ([Re <= 0] or [Re_ref <> 0]),
    [eval_coeffs] returns [Cl = Cl_lin - (1 - Cl_alpha_stall/Cl_alpha) CLLIM]
    with [Cl_lin = Cl_alpha PG (AoA - alpha_0_lift)],
    [PG = 1/sqrt(1 - M^2)] and
    [CLLIM = Cl_incr_to_stall ln((1 + ECMAX)/(1 + ECMIN))], the exponents of
    [ECMAX] and [ECMIN] capped at 200; the correction flags play no part. *)
Theorem xRotor_lift_coefficient
    (interp2d : option (list R) -> option (list R) ->
                option (list (list R)) -> result (R -> option R -> result R))
    (self : Aerodynamics) (AoA Re_ref Re M : R)
    (x : option R) (r_R : option (list R))
    (Cl_database Cd_database : option (list (list R)))
    (p : EmpiricalAirfoilParameters) :
  aero_method self = "xRotor"%string ->
  0 <= M < 1 ->
  Cl_alpha p <> 0 ->
  Cl_incr_to_stall p <> 0 ->
  Re <= 0 \/ Re_ref <> 0 ->
  let PG := 1 / sqrt (1 - M ^ 2) in
  let Cl_lin := Cl_alpha p * PG * (AoA - alpha_0_lift p) in
  let CLMAX :=
    Rmin (Cl_max p)
         (Rmax 0 ((Mach_crit p + DMSTALL_of - M) / CLMFACTOR)
          + Cl_at_cd_min p) in
  let CLMIN :=
    Rmax (Cl_min p)
         (Rmin 0 ((- (Mach_crit p + DMSTALL_of - M)) / CLMFACTOR)
          + Cl_at_cd_min p) in
  let ECMAX := exp (Rmin 200 ((Cl_lin - CLMAX) / Cl_incr_to_stall p)) in
  let ECMIN := exp (Rmin 200 ((CLMIN - Cl_lin) / Cl_incr_to_stall p)) in
  let CLLIM := Cl_incr_to_stall p * ln ((1 + ECMAX) / (1 + ECMIN)) in
  exists Cd,
    eval_coeffs interp2d self AoA Re_ref Re M x r_R Cl_database Cd_database
      (Some (alpha_0_lift p)) (Some (Cl_alpha p)) (Some (Cl_alpha_stall p))
      (Some (Cl_max p)) (Some (Cl_min p)) (Some (Cl_incr_to_stall p))
      (Some (Cd_min p)) (Some (Cl_at_cd_min p)) (Some (dCd_dCl2 p))
      (Some (Mach_crit p)) (Some (Re_scaling_exp p))
    = Ok (Cl_lin - (1 - Cl_alpha_stall p / Cl_alpha p) * CLLIM, Cd).
Proof.
  intros Hm HM Ha Hi HRe. cbv zeta.
  destruct (reynolds_RCORR_defined Re_ref Re (Re_scaling_exp p) HRe)
    as [rc Hrc].
  exists (Cd_of p AoA M rc).
  rewrite eval_coeffs_xRotor_supplied by exact Hm.
  rewrite (xRotor_eval_ok p AoA Re_ref Re M rc HM Ha Hi Hrc).
  reflexivity.
Qed.

Lemma xRotor_lift_coefficient_witness :
  0 <= 0.5 < 1 /\
  exists Cl Cd,
    eval_coeffs_with (xRotor_evaluator true true) 0.1 1e+6 2e+6 0.5
      usage_parameters
    = Ok (Cl, Cd).
Proof.
  split; [lra|].
  destruct (xRotor_lift_coefficient interp2d_linear
              (xRotor_evaluator true true) 0.1 1e+6 2e+6 0.5
              None None None None usage_parameters
              eq_refl ltac:(lra)
              ltac:(cbn [usage_parameters Cl_alpha]; lra)
              ltac:(cbn [usage_parameters Cl_incr_to_stall]; lra)
              ltac:(right; lra)) as [Cd HCd].
  eexists. exists Cd. exact HCd.
Defined.

(** ** The xRotor model: drag *)

Lemma DCD_of_nonneg (p : EmpiricalAirfoilParameters) (AoA M : R) :
  0 <= DCD_of p AoA M.
Proof.
  unfold DCD_of. pose proof (pow2_ge_0 (DCDX_of p AoA M)). lra.
Qed.

Lemma CDC_of_nonneg (p : EmpiricalAirfoilParameters) (AoA M : R) :
  0 <= CDC_of p AoA M.
Proof.
  unfold CDC_of, CDMFACTOR.
  destruct (Rlt_dec M (CRITMACH_of p AoA M)) as [L|N]; [lra|].
  assert (H : 0 <= (M - CRITMACH_of p AoA M) ^ 3) by (apply pow_le; lra).
  lra.
Qed.

(** The total of line 200, by real and imaginary part. *)
Lemma total_drag_parts (base : pynum) (d c : R) :
  let total :=
    num_add (num_add (num_mul (PyFloat 1) base) (PyFloat d)) (PyFloat c) in
  num_re total = num_re base + d + c /\
  num_im total = num_im base /\
  (forall b, base = PyFloat b -> total = PyFloat (b + d + c)).
Proof.
  cbv zeta. destruct base as [b|re im]; cbn [num_mul num_add num_re num_im].
  - repeat split; try lra.
    intros b' Hb. injection Hb as <-. f_equal. lra.
  - repeat split; try lra. intros b' Hb. discriminate Hb.
Qed.

(** The Reynolds scaling of lines 169-172 for meaningful Reynolds numbers
    is a float. *)
Lemma reynolds_RCORR_value (Re_ref Re e : R) :
  Re <= 0 \/ 0 < Re_ref ->
  reynolds_RCORR Re_ref Re e
  = Ok (PyFloat (if Rle_dec Re 0 then 1 else Rpower (Re / Re_ref) e)).
Proof.
  intros H. unfold reynolds_RCORR.
  destruct (Rle_dec Re 0) as [L|N]; [reflexivity|].
  destruct H as [H|H]; [lra|].
  rewrite truediv_ok by lra. cbn [bind].
  assert (Hq : 0 < Re / Re_ref) by (apply Rdiv_lt_0_compat; lra).
  unfold float_pow.
  destruct (Req_dec_T e 0) as [E|_].
  - subst e. rewrite Rpower_O by exact Hq. reflexivity.
  - destruct (Req_dec_T (Re / Re_ref) 0); [lra|].
    destruct (Rlt_dec 0 (Re / Re_ref)); [reflexivity | lra].
Qed.

Lemma frac_part_m015 : frac_part (-0.15) = 0.85.
Proof.
  destruct (Int_part_frac_part_spec (-0.15) (-1) 0.85) as [_ H];
    [lra | lra |].
  symmetry. exact H.
Qed.

(** A positive [Re] over a negative [Re_ref], raised to the power [-0.15],
    is a complex number with a negative imaginary part. *)
Lemma reynolds_RCORR_negative_reference (Re_ref Re : R) :
  0 < Re -> Re_ref < 0 ->
  exists re im,
    reynolds_RCORR Re_ref Re (-0.15) = Ok (PyComplex re im) /\ im < 0.
Proof.
  intros HRe HRef. unfold reynolds_RCORR.
  destruct (Rle_dec Re 0) as [L|_]; [lra|].
  rewrite truediv_ok by lra. cbn [bind].
  assert (Hq : Re / Re_ref < 0).
  { unfold Rdiv.
    assert (/ Re_ref < 0) by (apply Rinv_lt_0_compat, HRef). nra. }
  unfold float_pow.
  destruct (Req_dec_T (-0.15) 0) as [E|_]; [lra|].
  destruct (Req_dec_T (Re / Re_ref) 0) as [E|_]; [lra|].
  destruct (Rlt_dec 0 (Re / Re_ref)) as [L|_]; [lra|].
  rewrite frac_part_m015.
  destruct (Req_dec_T 0.85 0) as [E|_]; [lra|].
  eexists. eexists. split; [reflexivity|].
  assert (Hp : 0 < Rpower (- (Re / Re_ref)) (-0.15))
    by (unfold Rpower; apply exp_pos).
  assert (Hsin : sin (-0.15 * PI) < 0).
  { replace (-0.15 * PI) with (- (0.15 * PI)) by lra. rewrite sin_neg.
    pose proof PI_RGT_0 as Hpi.
    pose proof (sin_gt_0 (0.15 * PI) ltac:(lra) ltac:(lra)). lra. }
  nra.
Qed.

(** C4, as stated, fails: with the parameters of the usage notes, [M = 0.5],
    [Re = 1e6] and a negative reference Reynolds number, every hypothesis of
    the claim holds, line 172 raises a negative number to the power [-0.15],
    and the drag coefficient returned is a complex number with a non-zero
    imaginary part, for which [Cd >= Cd_base] says nothing. *)
Lemma xRotor_drag_complex_for_negative_reference :
  (Cd_min usage_parameters >= 0 /\ dCd_dCl2 usage_parameters >= 0 /\
   0 <= 0.5 < 1 /\ Cl_alpha usage_parameters <> 0)
  /\ exists Cl re im,
       eval_coeffs_with (xRotor_evaluator false false) 0.1 (-1e+6) 1e+6 0.5
         usage_parameters
       = Ok (Cl, PyComplex re im) /\ im <> 0.
Proof.
  split;
    [cbn [usage_parameters Cd_min dCd_dCl2 Cl_alpha]; repeat split; lra|].
  destruct (reynolds_RCORR_negative_reference (-1e+6) 1e+6)
    as (re & im & Hr & Him); [lra | lra |].
  unfold eval_coeffs_with.
  rewrite eval_coeffs_xRotor_supplied by reflexivity.
  rewrite (xRotor_eval_ok usage_parameters 0.1 (-1e+6) 1e+6 0.5
             (PyComplex re im));
    [| lra
     | cbn [usage_parameters Cl_alpha]; lra
     | cbn [usage_parameters Cl_incr_to_stall]; lra
     | exact Hr].
  cbn [bind xRotor_formulas lift_coeff drag_coeff].
  unfold Cd_of, Cd_base_of. cbn [num_mul num_add num_re num_im].
  eexists. eexists. eexists. split; [reflexivity|].
  cbn [usage_parameters Cd_min dCd_dCl2 Cl_at_cd_min].
  pose proof (pow2_ge_0 (Cl_of usage_parameters 0.1 0.5 - 0.500)) as Hsq.
  set (sq := (Cl_of usage_parameters 0.1 0.5 - 0.500) ^ 2) in *.
  nra.
Qed.

(** The xRotor drag in the words of its description (steps 6 to 10):
    what a call returns, and what every returning call has computed. *)
Lemma xRotor_drag_parts
    (interp2d : option (list R) -> option (list R) ->
                option (list (list R)) -> result (R -> option R -> result R))
    (self : Aerodynamics) (AoA Re_ref Re M : R)
    (x : option R) (r_R : option (list R))
    (Cl_database Cd_database : option (list (list R)))
    (p : EmpiricalAirfoilParameters) :
  aero_method self = "xRotor"%string ->
  0 <= DCD_of p AoA M /\ 0 <= CDC_of p AoA M /\
  (0 <= M < 1 -> Cl_alpha p <> 0 -> Cl_incr_to_stall p <> 0 ->
   Re <= 0 \/ 0 < Re_ref ->
   eval_coeffs interp2d self AoA Re_ref Re M x r_R Cl_database Cd_database
     (Some (alpha_0_lift p)) (Some (Cl_alpha p)) (Some (Cl_alpha_stall p))
     (Some (Cl_max p)) (Some (Cl_min p)) (Some (Cl_incr_to_stall p))
     (Some (Cd_min p)) (Some (Cl_at_cd_min p)) (Some (dCd_dCl2 p))
     (Some (Mach_crit p)) (Some (Re_scaling_exp p))
   = Ok (Cl_of p AoA M,
         PyFloat ((Cd_min p
                   + dCd_dCl2 p * (Cl_of p AoA M - Cl_at_cd_min p) ^ 2)
                  * (if Rle_dec Re 0 then 1
                     else Rpower (Re / Re_ref) (Re_scaling_exp p))
                  + DCD_of p AoA M + CDC_of p AoA M))
   /\
   (Cd_min p + dCd_dCl2 p * (Cl_of p AoA M - Cl_at_cd_min p) ^ 2)
   * (if Rle_dec Re 0 then 1 else Rpower (Re / Re_ref) (Re_scaling_exp p))
   <= (Cd_min p + dCd_dCl2 p * (Cl_of p AoA M - Cl_at_cd_min p) ^ 2)
      * (if Rle_dec Re 0 then 1
         else Rpower (Re / Re_ref) (Re_scaling_exp p))
      + DCD_of p AoA M + CDC_of p AoA M)
  /\
  (forall Cl' Cd',
     eval_coeffs interp2d self AoA Re_ref Re M x r_R Cl_database Cd_database
       (Some (alpha_0_lift p)) (Some (Cl_alpha p)) (Some (Cl_alpha_stall p))
       (Some (Cl_max p)) (Some (Cl_min p)) (Some (Cl_incr_to_stall p))
       (Some (Cd_min p)) (Some (Cl_at_cd_min p)) (Some (dCd_dCl2 p))
       (Some (Mach_crit p)) (Some (Re_scaling_exp p))
     = Ok (Cl', Cd') ->
     Cl' = Cl_of p AoA M /\
     exists rcorr,
       reynolds_RCORR Re_ref Re (Re_scaling_exp p) = Ok rcorr /\
       (Re <= 0 \/ 0 < Re_ref ->
        rcorr = PyFloat (if Rle_dec Re 0 then 1
                         else Rpower (Re / Re_ref) (Re_scaling_exp p))) /\
       Cd' = num_add
               (num_add
                  (num_mul (PyFloat 1)
                     (num_mul
                        (PyFloat
                           (Cd_min p
                            + dCd_dCl2 p
                              * (Cl_of p AoA M - Cl_at_cd_min p) ^ 2))
                        rcorr))
                  (PyFloat (DCD_of p AoA M)))
               (PyFloat (CDC_of p AoA M)) /\
       num_re Cd'
       = num_re
           (num_mul
              (PyFloat
                 (Cd_min p
                  + dCd_dCl2 p * (Cl_of p AoA M - Cl_at_cd_min p) ^ 2))
              rcorr)
         + DCD_of p AoA M + CDC_of p AoA M /\
       num_im Cd'
       = num_im
           (num_mul
              (PyFloat
                 (Cd_min p
                  + dCd_dCl2 p * (Cl_of p AoA M - Cl_at_cd_min p) ^ 2))
              rcorr) /\
       (forall b,
          num_mul
            (PyFloat
               (Cd_min p
                + dCd_dCl2 p * (Cl_of p AoA M - Cl_at_cd_min p) ^ 2))
            rcorr
          = PyFloat b ->
          Cd' = PyFloat (b + DCD_of p AoA M + CDC_of p AoA M) /\
          b <= b + DCD_of p AoA M + CDC_of p AoA M)).
Proof.
  intros Hm.
  pose proof (DCD_of_nonneg p AoA M) as Hd.
  pose proof (CDC_of_nonneg p AoA M) as Hc.
  split; [exact Hd|]. split; [exact Hc|]. split.
  - intros HM Ha Hi HRe.
    pose proof (reynolds_RCORR_value Re_ref Re (Re_scaling_exp p) HRe) as Hr.
    split; [|lra].
    rewrite eval_coeffs_xRotor_supplied by exact Hm.
    rewrite (xRotor_eval_ok p AoA Re_ref Re M _ HM Ha Hi Hr).
    cbn [bind xRotor_formulas lift_coeff drag_coeff].
    unfold Cd_of, Cd_base_of. cbn [num_mul num_add]. do 3 f_equal. ring.
  - intros Cl' Cd' H.
    rewrite eval_coeffs_xRotor_supplied in H by exact Hm.
    destruct (xRotor_eval p AoA Re_ref Re M) as [L|e] eqn:E;
      [|discriminate H].
    cbn [bind] in H. injection H as <- <-.
    destruct (xRotor_eval_inv p AoA Re_ref Re M L E) as (_ & _ & _ & Hr & HL).
    remember (RCORR L) as rc eqn:Hrc. subst L.
    cbn [xRotor_formulas lift_coeff drag_coeff].
    split; [reflexivity|]. exists rc. split; [exact Hr|].
    destruct (total_drag_parts (Cd_base_of p AoA M rc) (DCD_of p AoA M)
                (CDC_of p AoA M)) as (Hre & Him & Hfl).
    split.
    { intros HRe.
      pose proof (reynolds_RCORR_value Re_ref Re (Re_scaling_exp p) HRe)
        as Hv.
      rewrite Hr in Hv. injection Hv as Hv. exact Hv. }
    split; [reflexivity|]. split; [exact Hre|]. split; [exact Him|].
    intros b Hb. split; [apply Hfl; exact Hb | lra].
Qed.

(** C4, amended: under the xRotor method with all eleven parameters
    supplied, [0 <= M < 1], [Cl_alpha <> 0], [Cl_incr_to_stall <> 0] and
    meaningful Reynolds numbers ([Re <= 0] or [Re_ref > 0]), [eval_coeffs]
    returns the float [Cd = Cd_base + DCD + CDC >= Cd_base], where
    [Cd_base = (Cd_min + dCd_dCl2 (Cl - Cl_at_cd_min)^2) RCORR],
    [RCORR = 1] for [Re <= 0] and [(Re/Re_ref)^Re_scaling_exp] otherwise,
    [DCD = 2 DCDX^2 >= 0] with
    [DCDX = (1 - FSTALL) CLLIM / (PG Cl_alpha)], and [CDC >= 0] is the
    compressibility term.  In every returning evaluation the same sum holds
    for whatever number [RCORR] is, a float when [Re <= 0] or [Re_ref > 0]:
    the real parts are so ordered and the imaginary parts are equal.  [Cd_min >= 0] and [dCd_dCl2 >= 0] are not
    needed. *)
Theorem xRotor_drag_not_below_base
    (interp2d : option (list R) -> option (list R) ->
                option (list (list R)) -> result (R -> option R -> result R))
    (self : Aerodynamics) (AoA Re_ref Re M : R)
    (x : option R) (r_R : option (list R))
    (Cl_database Cd_database : option (list (list R)))
    (p : EmpiricalAirfoilParameters) :
  aero_method self = "xRotor"%string ->
  let PG := 1 / sqrt (1 - M ^ 2) in
  let Cl_lin := Cl_alpha p * PG * (AoA - alpha_0_lift p) in
  let CLMAX :=
    Rmin (Cl_max p)
         (Rmax 0 ((Mach_crit p + DMSTALL_of - M) / CLMFACTOR)
          + Cl_at_cd_min p) in
  let CLMIN :=
    Rmax (Cl_min p)
         (Rmin 0 ((- (Mach_crit p + DMSTALL_of - M)) / CLMFACTOR)
          + Cl_at_cd_min p) in
  let ECMAX := exp (Rmin 200 ((Cl_lin - CLMAX) / Cl_incr_to_stall p)) in
  let ECMIN := exp (Rmin 200 ((CLMIN - Cl_lin) / Cl_incr_to_stall p)) in
  let CLLIM := Cl_incr_to_stall p * ln ((1 + ECMAX) / (1 + ECMIN)) in
  let FSTALL := Cl_alpha_stall p / Cl_alpha p in
  let Cl := Cl_lin - (1 - FSTALL) * CLLIM in
  let DCDX := (1 - FSTALL) * CLLIM / (PG * Cl_alpha p) in
  let DCD := 2 * DCDX ^ 2 in
  let DMDD := Rpower (CDMDD / CDMFACTOR) (1 / MEXP) in
  let CRITMACH :=
    Mach_crit p - CLMFACTOR * Rabs (Cl - Cl_at_cd_min p) - DMDD in
  let CDC := if Rlt_dec M CRITMACH then 0
             else CDMFACTOR * (M - CRITMACH) ^ 3 in
  let parabola := Cd_min p + dCd_dCl2 p * (Cl - Cl_at_cd_min p) ^ 2 in
  0 <= DCD /\ 0 <= CDC /\
  (0 <= M < 1 -> Cl_alpha p <> 0 -> Cl_incr_to_stall p <> 0 ->
   Re <= 0 \/ 0 < Re_ref ->
   let RCORR := if Rle_dec Re 0 then 1
                else Rpower (Re / Re_ref) (Re_scaling_exp p) in
   let Cd_base := parabola * RCORR in
   eval_coeffs interp2d self AoA Re_ref Re M x r_R Cl_database Cd_database
     (Some (alpha_0_lift p)) (Some (Cl_alpha p)) (Some (Cl_alpha_stall p))
     (Some (Cl_max p)) (Some (Cl_min p)) (Some (Cl_incr_to_stall p))
     (Some (Cd_min p)) (Some (Cl_at_cd_min p)) (Some (dCd_dCl2 p))
     (Some (Mach_crit p)) (Some (Re_scaling_exp p))
   = Ok (Cl, PyFloat (Cd_base + DCD + CDC))
   /\ Cd_base <= Cd_base + DCD + CDC)
  /\
  (forall Cl' Cd',
     eval_coeffs interp2d self AoA Re_ref Re M x r_R Cl_database Cd_database
       (Some (alpha_0_lift p)) (Some (Cl_alpha p)) (Some (Cl_alpha_stall p))
       (Some (Cl_max p)) (Some (Cl_min p)) (Some (Cl_incr_to_stall p))
       (Some (Cd_min p)) (Some (Cl_at_cd_min p)) (Some (dCd_dCl2 p))
       (Some (Mach_crit p)) (Some (Re_scaling_exp p))
     = Ok (Cl', Cd') ->
     Cl' = Cl /\
     exists rcorr,
       reynolds_RCORR Re_ref Re (Re_scaling_exp p) = Ok rcorr /\
       (Re <= 0 \/ 0 < Re_ref ->
        rcorr = PyFloat (if Rle_dec Re 0 then 1
                         else Rpower (Re / Re_ref) (Re_scaling_exp p))) /\
       let Cd_base := num_mul (PyFloat parabola) rcorr in
       Cd' = num_add (num_add (num_mul (PyFloat 1) Cd_base) (PyFloat DCD))
                     (PyFloat CDC) /\
       num_re Cd' = num_re Cd_base + DCD + CDC /\
       num_im Cd' = num_im Cd_base /\
       (forall b, Cd_base = PyFloat b ->
          Cd' = PyFloat (b + DCD + CDC) /\ b <= b + DCD + CDC)).
Proof.
  intros Hm. cbv zeta.
  exact (xRotor_drag_parts interp2d self AoA Re_ref Re M x r_R
           Cl_database Cd_database p Hm).
Qed.

Lemma reynolds_RCORR_at_rest (Re_ref e : R) :
  reynolds_RCORR Re_ref 0 e = Ok (PyFloat 1).
Proof.
  unfold reynolds_RCORR. destruct (Rle_dec 0 0) as [_|N]; [reflexivity | lra].
Qed.

Lemma xRotor_drag_not_below_base_witness :
  0 <= 0.5 < 1 /\
  exists Cl Cd_base Cd,
    eval_coeffs_with (xRotor_evaluator true true) 0.1 1e+6 2e+6 0.5
      usage_parameters
    = Ok (Cl, PyFloat Cd) /\ Cd_base <= Cd.
Proof.
  split; [lra|].
  pose proof (proj1 (proj2 (proj2
                (xRotor_drag_not_below_base interp2d_linear
                   (xRotor_evaluator true true) 0.1 1e+6 2e+6 0.5
                   None None None None usage_parameters eq_refl)))) as H.
  cbv zeta in H.
  destruct H as [HE Hle].
  - lra.
  - cbn [usage_parameters Cl_alpha]. lra.
  - cbn [usage_parameters Cl_incr_to_stall]. lra.
  - right. lra.
  - eexists. eexists. eexists. split; [exact HE | exact Hle].
Defined.

(** ** The xRotor model: the stall limiter *)

Lemma ln_sign (r : R) : 0 < r -> (0 <= ln r <-> 1 <= r).
Proof.
  intros Hr. split; intros H.
  - destruct (Rle_lt_dec 1 r) as [L|L]; [exact L|].
    pose proof (ln_increasing r 1 Hr L) as Hl. rewrite ln_1 in Hl. lra.
  - destruct H as [H|H].
    + pose proof (ln_increasing 1 r Rlt_0_1 H) as Hl. rewrite ln_1 in Hl. lra.
    + subst r. rewrite ln_1. lra.
Qed.

Lemma exp_le (a b : R) : a <= b -> exp a <= exp b.
Proof.
  intros [H|H].
  - left. apply exp_increasing, H.
  - subst. right. reflexivity.
Qed.

(** The sign of [c ln((1 + exp a)/(1 + exp b))] for a positive [c]. *)
Lemma limiter_sign (c a b : R) :
  0 < c ->
  (0 <= c * ln ((1 + exp a) / (1 + exp b)) <-> exp b <= exp a).
Proof.
  intros Hc.
  pose proof (exp_pos a) as Ha. pose proof (exp_pos b) as Hb.
  pose proof (limiter_ratio_pos a b) as Hr.
  pose proof (ln_sign _ Hr) as Hln.
  assert (Hratio : 1 <= (1 + exp a) / (1 + exp b) <-> exp b <= exp a).
  { split; intros H.
    - apply (Rmult_le_compat_r (1 + exp b)) in H; [|lra].
      unfold Rdiv in H. rewrite Rmult_assoc, Rinv_l in H by lra. lra.
    - apply (Rmult_le_reg_r (1 + exp b)); [lra|].
      unfold Rdiv. rewrite Rmult_assoc, Rinv_l by lra. lra. }
  split; intros H.
  - apply Hratio, Hln.
    destruct (Rle_lt_dec 0 (ln ((1 + exp a) / (1 + exp b)))) as [L|L];
      [exact L|].
    exfalso. assert (c * ln ((1 + exp a) / (1 + exp b)) < 0) by nra. lra.
  - apply Hratio, Hln in H. nra.
Qed.

Lemma limiter_nonneg (p : EmpiricalAirfoilParameters) (AoA M : R) :
  0 < Cl_incr_to_stall p ->
  CLMIN_of p M - Cl_lin_of p AoA M <= Cl_lin_of p AoA M - CLMAX_of p M ->
  0 <= CLLIM_of p AoA M.
Proof.
  intros Hc H. unfold CLLIM_of, ECMAX_of, ECMIN_of.
  apply limiter_sign; [exact Hc|].
  apply exp_le. apply Rle_min_compat_l.
  unfold Rdiv. apply Rmult_le_compat_r; [|exact H].
  left. apply Rinv_0_lt_compat, Hc.
Qed.

Lemma limiter_negative (p : EmpiricalAirfoilParameters) (AoA M : R) :
  0 < Cl_incr_to_stall p ->
  Cl_lin_of p AoA M - CLMAX_of p M < CLMIN_of p M - Cl_lin_of p AoA M ->
  (Cl_lin_of p AoA M - CLMAX_of p M) / Cl_incr_to_stall p < 200 ->
  CLLIM_of p AoA M < 0.
Proof.
  intros Hc H Hcap.
  destruct (Rle_lt_dec 0 (CLLIM_of p AoA M)) as [L|L]; [|exact L].
  exfalso. unfold CLLIM_of, ECMAX_of, ECMIN_of in L.
  apply limiter_sign in L; [|exact Hc].
  assert (Hinv : 0 < / Cl_incr_to_stall p) by (apply Rinv_0_lt_compat, Hc).
  assert (Hdiv : (Cl_lin_of p AoA M - CLMAX_of p M) / Cl_incr_to_stall p
                 < (CLMIN_of p M - Cl_lin_of p AoA M) / Cl_incr_to_stall p).
  { unfold Rdiv. apply Rmult_lt_compat_r; assumption. }
  assert (Hlt : Rmin 200
                  ((Cl_lin_of p AoA M - CLMAX_of p M) / Cl_incr_to_stall p)
                < Rmin 200
                    ((CLMIN_of p M - Cl_lin_of p AoA M)
                     / Cl_incr_to_stall p)).
  { rewrite (Rmin_right 200 ((Cl_lin_of p AoA M - CLMAX_of p M) / _))
      by lra.
    unfold Rmin.
    destruct (Rle_dec 200 ((CLMIN_of p M - Cl_lin_of p AoA M)
                           / Cl_incr_to_stall p)); lra. }
  apply exp_increasing in Hlt. lra.
Qed.

(** C3, as stated, fails: with the parameters of the usage notes at
    [M = 0] and [AoA = -0.5], where [Cl_lin = -3.14] lies below both stall
    bounds, the limiter value is negative. *)
Lemma stall_limiter_negative_below_negative_stall :
  (0 < Cl_incr_to_stall usage_parameters /\ 0 <= 0 < 1)
  /\ exists L,
       xRotor_eval usage_parameters (-0.5) 1e+6 1e+6 0 = Ok L /\
       CLLIM L < 0.
Proof.
  assert (Hc : 0 < Cl_incr_to_stall usage_parameters)
    by (cbn [usage_parameters Cl_incr_to_stall]; lra).
  split; [split; [exact Hc | lra]|].
  destruct (reynolds_RCORR_float 1e+6 1e+6
              (Re_scaling_exp usage_parameters)) as [k Hk]; [right; lra|].
  exists (xRotor_formulas usage_parameters (-0.5) 0 (PyFloat k)).
  split.
  - apply xRotor_eval_ok; try exact Hk;
      cbn [usage_parameters Cl_alpha Cl_incr_to_stall]; lra.
  - cbn [xRotor_formulas CLLIM].
    assert (Hlin : Cl_lin_of usage_parameters (-0.5) 0 = -3.14).
    { unfold Cl_lin_of, PG_of. rewrite sqrt_compl_0.
      cbn [usage_parameters Cl_alpha alpha_0_lift]. lra. }
    assert (Hmax : 0.5 <= CLMAX_of usage_parameters 0).
    { unfold CLMAX_of, CLMAXM_of.
      cbn [usage_parameters Cl_max Cl_at_cd_min Mach_crit].
      apply Rmin_glb; [lra|].
      pose proof (Rmax_l 0 ((0.8 + DMSTALL_of - 0) / CLMFACTOR)). lra. }
    assert (Hmin : -0.5 <= CLMIN_of usage_parameters 0).
    { unfold CLMIN_of. cbn [usage_parameters Cl_min]. apply Rmax_l. }
    apply limiter_negative; [exact Hc | rewrite Hlin; lra |].
    rewrite Hlin. cbn [usage_parameters Cl_incr_to_stall]. lra.
Qed.

(** C3, amended: with [Cl_incr_to_stall > 0], in every evaluation that
    reaches the limiter, [ECMAX] and [ECMIN] are positive and
    [CLLIM = Cl_incr_to_stall ln((1 + ECMAX)/(1 + ECMIN))] is non-negative
    exactly when [ECMAX >= ECMIN]; this holds whenever
    [Cl_lin - CLMAX >= CLMIN - Cl_lin], and [CLLIM] is negative when
    [Cl_lin - CLMAX < CLMIN - Cl_lin] with the first exponent below the cap.
    With [0 <= M < 1], [Cl_alpha <> 0] and [Re <= 0] or [Re_ref <> 0] the
    evaluation does reach it. *)
Theorem stall_limiter_sign (p : EmpiricalAirfoilParameters)
    (AoA Re_ref Re M : R) :
  0 < Cl_incr_to_stall p ->
  (forall L,
     xRotor_eval p AoA Re_ref Re M = Ok L ->
     ECMAX L
     = exp (Rmin 200 ((Cl_lin L - CLMAX L) / Cl_incr_to_stall p)) /\
     ECMIN L
     = exp (Rmin 200 ((CLMIN L - Cl_lin L) / Cl_incr_to_stall p)) /\
     CLLIM L
     = Cl_incr_to_stall p * ln ((1 + ECMAX L) / (1 + ECMIN L)) /\
     0 < ECMAX L /\ 0 < ECMIN L /\
     (0 <= CLLIM L <-> ECMIN L <= ECMAX L) /\
     (CLMIN L - Cl_lin L <= Cl_lin L - CLMAX L -> 0 <= CLLIM L) /\
     (Cl_lin L - CLMAX L < CLMIN L - Cl_lin L ->
      (Cl_lin L - CLMAX L) / Cl_incr_to_stall p < 200 ->
      CLLIM L < 0))
  /\
  (0 <= M < 1 -> Cl_alpha p <> 0 -> Re <= 0 \/ Re_ref <> 0 ->
   exists L, xRotor_eval p AoA Re_ref Re M = Ok L).
Proof.
  intros Hc. split.
  - intros L E.
    destruct (xRotor_eval_inv p AoA Re_ref Re M L E) as (_ & _ & _ & _ & HL).
    remember (RCORR L) as rc eqn:Hrc. subst L.
    cbn [xRotor_formulas ECMAX ECMIN CLLIM Cl_lin CLMAX CLMIN].
    repeat split; try reflexivity.
    + apply exp_pos.
    + apply exp_pos.
    + unfold CLLIM_of, ECMAX_of, ECMIN_of. apply limiter_sign, Hc.
    + unfold CLLIM_of, ECMAX_of, ECMIN_of. apply limiter_sign, Hc.
    + apply limiter_nonneg, Hc.
    + apply limiter_negative, Hc.
  - intros HM Ha HRe.
    destruct (reynolds_RCORR_defined Re_ref Re (Re_scaling_exp p) HRe)
      as [rc Hrc].
    exists (xRotor_formulas p AoA M rc).
    apply xRotor_eval_ok; try assumption. lra.
Qed.

Lemma stall_limiter_sign_witness :
  0 < Cl_incr_to_stall usage_parameters /\
  exists L, xRotor_eval usage_parameters 0.1 1e+6 2e+6 0.5 = Ok L.
Proof.
  assert (Hc : 0 < Cl_incr_to_stall usage_parameters)
    by (cbn [usage_parameters Cl_incr_to_stall]; lra).
  split; [exact Hc|].
  apply (proj2 (stall_limiter_sign usage_parameters 0.1 1e+6 2e+6 0.5 Hc)).
  - lra.
  - cbn [usage_parameters Cl_alpha]. lra.
  - right. lra.
Defined.

(** ** The xRotor model: compressibility drag *)

Lemma DMDD_of_pos : 0 < DMDD_of.
Proof. unfold DMDD_of, Rpower. apply exp_pos. Qed.

Lemma cube_le (a b : R) : 0 <= a -> a <= b -> a ^ 3 <= b ^ 3.
Proof. intros Ha Hab. apply pow_incr. lra. Qed.

Lemma cube_lt (a b : R) : 0 <= a -> a < b -> a ^ 3 < b ^ 3.
Proof.
  intros Ha Hab.
  assert (H : b ^ 3 - a ^ 3 = (b - a) * (a * a + a * b + b * b)) by ring.
  assert (Hq : 0 < a * a + a * b + b * b) by nra.
  assert (Hp : 0 < (b - a) * (a * a + a * b + b * b))
    by (apply Rmult_lt_0_compat; lra).
  lra.
Qed.

(** [CDC] as a function of the excess [M - CRITMACH]. *)
Lemma CDC_of_excess (p : EmpiricalAirfoilParameters) (AoA M : R) :
  (M < CRITMACH_of p AoA M -> CDC_of p AoA M = 0) /\
  (CRITMACH_of p AoA M <= M ->
   CDC_of p AoA M = CDMFACTOR * (M - CRITMACH_of p AoA M) ^ 3).
Proof.
  unfold CDC_of.
  destruct (Rlt_dec M (CRITMACH_of p AoA M)) as [L|N]; split; intros H;
    try reflexivity; lra.
Qed.

Lemma CDC_of_monotone (p p' : EmpiricalAirfoilParameters)
    (AoA AoA' M M' : R) :
  CRITMACH_of p AoA M <= M ->
  (M - CRITMACH_of p AoA M <= M' - CRITMACH_of p' AoA' M' ->
   CDC_of p AoA M <= CDC_of p' AoA' M') /\
  (M - CRITMACH_of p AoA M < M' - CRITMACH_of p' AoA' M' ->
   CDC_of p AoA M < CDC_of p' AoA' M').
Proof.
  intros H.
  rewrite (proj2 (CDC_of_excess p AoA M)) by exact H.
  unfold CDMFACTOR. split; intros Hx.
  - rewrite (proj2 (CDC_of_excess p' AoA' M')) by lra. unfold CDMFACTOR.
    pose proof (cube_le (M - CRITMACH_of p AoA M)
                  (M' - CRITMACH_of p' AoA' M')). lra.
  - rewrite (proj2 (CDC_of_excess p' AoA' M')) by lra. unfold CDMFACTOR.
    pose proof (cube_lt (M - CRITMACH_of p AoA M)
                  (M' - CRITMACH_of p' AoA' M')). lra.
Qed.

(** With [Cl_alpha_stall = Cl_alpha] the limiter is switched off and the
    lift coefficient is the linear one. *)
Lemma unstalled_Cl (AoA M : R) :
  Cl_of unstalled_parameters AoA M = 6.28 * PG_of M * AoA.
Proof.
  unfold Cl_of, FSTALL_of, Cl_lin_of.
  cbn [unstalled_parameters Cl_alpha Cl_alpha_stall alpha_0_lift].
  replace (6.28 / 6.28) with 1 by lra.
  generalize (CLLIM_of unstalled_parameters AoA M). intros c.
  generalize (PG_of M). intros g. ring.
Qed.

Lemma PG_of_40_41 : PG_of (40 / 41) = 41 / 9.
Proof.
  unfold PG_of.
  replace (1 - (40 / 41) ^ 2) with ((9 / 41) * (9 / 41)) by lra.
  rewrite sqrt_square by lra. lra.
Qed.

Lemma PG_of_60_61 : PG_of (60 / 61) = 61 / 11.
Proof.
  unfold PG_of.
  replace (1 - (60 / 61) ^ 2) with ((11 / 61) * (11 / 61)) by lra.
  rewrite sqrt_square by lra. lra.
Qed.

(** C2, as stated, fails in its monotonicity part: for one airfoil
    ([unstalled_parameters]) at one angle of attack ([0.01]), raising the
    Mach number from 40/41 to 60/61, both at or above [CRITMACH], lowers
    [CDC]: the lift coefficient moves towards [Cl_at_cd_min], which raises
    [CRITMACH] by more than the Mach number has risen. *)
Lemma compressibility_drag_falls_as_mach_rises :
  exists L1 L2,
    xRotor_eval unstalled_parameters 0.01 1e+6 1e+6 (40 / 41) = Ok L1 /\
    xRotor_eval unstalled_parameters 0.01 1e+6 1e+6 (60 / 61) = Ok L2 /\
    CRITMACH L1 <= 40 / 41 /\ CRITMACH L2 <= 60 / 61 /\
    0 <= 40 / 41 < 60 / 61 /\ 60 / 61 < 1 /\
    CDC L2 < CDC L1.
Proof.
  destruct (reynolds_RCORR_float 1e+6 1e+6
              (Re_scaling_exp unstalled_parameters)) as [k Hk]; [right; lra|].
  exists (xRotor_formulas unstalled_parameters 0.01 (40 / 41) (PyFloat k)).
  exists (xRotor_formulas unstalled_parameters 0.01 (60 / 61) (PyFloat k)).
  pose proof DMDD_of_pos as HD.
  assert (C1 : CRITMACH_of unstalled_parameters 0.01 (40 / 41)
               = 0.8 - 0.25 * (0.5 - 6.28 * (41 / 9) * 0.01) - DMDD_of).
  { unfold CRITMACH_of. rewrite unstalled_Cl, PG_of_40_41.
    cbn [unstalled_parameters Mach_crit Cl_at_cd_min]. unfold CLMFACTOR.
    rewrite Rabs_left by lra. lra. }
  assert (C2 : CRITMACH_of unstalled_parameters 0.01 (60 / 61)
               = 0.8 - 0.25 * (0.5 - 6.28 * (61 / 11) * 0.01) - DMDD_of).
  { unfold CRITMACH_of. rewrite unstalled_Cl, PG_of_60_61.
    cbn [unstalled_parameters Mach_crit Cl_at_cd_min]. unfold CLMFACTOR.
    rewrite Rabs_left by lra. lra. }
  split; [|split].
  - apply xRotor_eval_ok; try exact Hk;
      cbn [unstalled_parameters Cl_alpha Cl_incr_to_stall]; lra.
  - apply xRotor_eval_ok; try exact Hk;
      cbn [unstalled_parameters Cl_alpha Cl_incr_to_stall]; lra.
  - cbn [xRotor_formulas CRITMACH CDC].
    split; [rewrite C1; lra|]. split; [rewrite C2; lra|].
    split; [lra|]. split; [lra|].
    apply (proj2 (CDC_of_monotone unstalled_parameters unstalled_parameters
                    0.01 0.01 (60 / 61) (40 / 41) ltac:(rewrite C2; lra))).
    rewrite C1, C2. lra.
Qed.

(** C2, amended: whenever [eval_coeffs] returns under the xRotor method, the
    term [CDC] added to the total drag is [0] when [M < CRITMACH] and
    [CDMFACTOR (M - CRITMACH)^MEXP] when [M >= CRITMACH], with
    [CRITMACH = Mach_crit - CLMFACTOR |Cl - Cl_at_cd_min| - DMDD],
    [DMDD = (CDMDD/CDMFACTOR)^(1/MEXP)] and the constants 10, 0.25, 3 and
    0.0020; it returns when [0 <= M < 1], [Cl_alpha <> 0],
    [Cl_incr_to_stall <> 0] and [Re <= 0] or [Re_ref <> 0]; and between two
    evaluations at or above [CRITMACH], [CDC] increases with the excess
    [M - CRITMACH], hence with [M] when [CRITMACH] is the same. *)
Theorem compressibility_drag_term
    (interp2d : option (list R) -> option (list R) ->
                option (list (list R)) -> result (R -> option R -> result R))
    (self : Aerodynamics) (AoA Re_ref Re M : R)
    (x : option R) (r_R : option (list R))
    (Cl_database Cd_database : option (list (list R)))
    (p : EmpiricalAirfoilParameters) :
  aero_method self = "xRotor"%string ->
  (forall Cl Cd,
     eval_coeffs interp2d self AoA Re_ref Re M x r_R Cl_database Cd_database
       (Some (alpha_0_lift p)) (Some (Cl_alpha p)) (Some (Cl_alpha_stall p))
       (Some (Cl_max p)) (Some (Cl_min p)) (Some (Cl_incr_to_stall p))
       (Some (Cd_min p)) (Some (Cl_at_cd_min p)) (Some (dCd_dCl2 p))
       (Some (Mach_crit p)) (Some (Re_scaling_exp p))
     = Ok (Cl, Cd) ->
     exists L,
       xRotor_eval p AoA Re_ref Re M = Ok L /\
       Cl = lift_coeff L /\ Cd = drag_coeff L /\
       DMDD L = Rpower (CDMDD / CDMFACTOR) (1 / MEXP) /\
       CRITMACH L
       = Mach_crit p - CLMFACTOR * Rabs (Cl - Cl_at_cd_min p) - DMDD L /\
       (M < CRITMACH L -> CDC L = 0) /\
       (CRITMACH L <= M -> CDC L = CDMFACTOR * (M - CRITMACH L) ^ 3) /\
       FAC L = 1 /\
       Cd = num_add (num_add (num_mul (PyFloat (FAC L)) (Cd_base L))
                             (PyFloat (DCD L)))
                    (PyFloat (CDC L)))
  /\
  (CDMFACTOR = 10 /\ CLMFACTOR = 0.25 /\ MEXP = 3 /\ CDMDD = 0.0020)
  /\
  (0 <= M < 1 -> Cl_alpha p <> 0 -> Cl_incr_to_stall p <> 0 ->
   Re <= 0 \/ Re_ref <> 0 ->
   exists L,
     xRotor_eval p AoA Re_ref Re M = Ok L /\
     eval_coeffs interp2d self AoA Re_ref Re M x r_R Cl_database Cd_database
       (Some (alpha_0_lift p)) (Some (Cl_alpha p)) (Some (Cl_alpha_stall p))
       (Some (Cl_max p)) (Some (Cl_min p)) (Some (Cl_incr_to_stall p))
       (Some (Cd_min p)) (Some (Cl_at_cd_min p)) (Some (dCd_dCl2 p))
       (Some (Mach_crit p)) (Some (Re_scaling_exp p))
     = Ok (lift_coeff L, drag_coeff L))
  /\
  (forall (p' : EmpiricalAirfoilParameters) (AoA' Re_ref' Re' M' : R)
          (L L' : xRotor_locals),
     xRotor_eval p AoA Re_ref Re M = Ok L ->
     xRotor_eval p' AoA' Re_ref' Re' M' = Ok L' ->
     CRITMACH L <= M ->
     (M - CRITMACH L <= M' - CRITMACH L' -> CDC L <= CDC L') /\
     (M - CRITMACH L < M' - CRITMACH L' -> CDC L < CDC L') /\
     (CRITMACH L' = CRITMACH L -> M <= M' -> CDC L <= CDC L')).
Proof.
  intros Hm. split; [|split; [|split]].
  - intros Cl Cd H.
    rewrite eval_coeffs_xRotor_supplied in H by exact Hm.
    destruct (xRotor_eval p AoA Re_ref Re M) as [L|e] eqn:E;
      [|discriminate H].
    cbn [bind] in H. injection H as <- <-.
    exists L. split; [reflexivity|].
    destruct (xRotor_eval_inv p AoA Re_ref Re M L E) as (_ & _ & _ & _ & HL).
    remember (RCORR L) as rc eqn:Hrc. subst L.
    cbn [xRotor_formulas lift_coeff drag_coeff Cd_base DCD CDC DMDD CRITMACH
         FAC].
    pose proof (CDC_of_excess p AoA M) as [Hlo Hhi].
    repeat split; try reflexivity; assumption.
  - repeat split; unfold CDMFACTOR, CLMFACTOR, MEXP, CDMDD; lra.
  - intros HM Ha Hi HRe.
    destruct (reynolds_RCORR_defined Re_ref Re (Re_scaling_exp p) HRe)
      as [rc Hrc].
    pose proof (xRotor_eval_ok p AoA Re_ref Re M rc HM Ha Hi Hrc) as E.
    exists (xRotor_formulas p AoA M rc). split; [exact E|].
    rewrite eval_coeffs_xRotor_supplied by exact Hm. rewrite E. reflexivity.
  - intros p' AoA' Re_ref' Re' M' L L' E E' Hc.
    destruct (xRotor_eval_inv p AoA Re_ref Re M L E) as (_ & _ & _ & _ & HL).
    destruct (xRotor_eval_inv p' AoA' Re_ref' Re' M' L' E')
      as (_ & _ & _ & _ & HL').
    remember (RCORR L) as rc eqn:Hrc. remember (RCORR L') as rc' eqn:Hrc'.
    subst L L'. cbn [xRotor_formulas CRITMACH CDC] in *.
    destruct (CDC_of_monotone p p' AoA AoA' M M' Hc) as [Hle Hlt].
    split; [exact Hle|]. split; [exact Hlt|].
    intros Heq HMM. apply Hle. rewrite Heq. lra.
Qed.

Lemma compressibility_drag_term_witness :
  0 <= 0.5 < 1 /\
  exists L,
    xRotor_eval usage_parameters 0.1 1e+6 2e+6 0.5 = Ok L /\
    eval_coeffs_with (xRotor_evaluator true true) 0.1 1e+6 2e+6 0.5
      usage_parameters
    = Ok (lift_coeff L, drag_coeff L).
Proof.
  split; [lra|].
  apply (proj1 (proj2 (proj2
           (compressibility_drag_term interp2d_linear
              (xRotor_evaluator true true) 0.1 1e+6 2e+6 0.5
              None None None None usage_parameters eq_refl)))).
  - lra.
  - cbn [usage_parameters Cl_alpha]. lra.
  - cbn [usage_parameters Cl_incr_to_stall]. lra.
  - right. lra.
Defined.

(** * Further properties of the evaluator *)

(** ** [eval_lift_properties] *)

Lemma rad2deg_deg2rad (a : R) : rad2deg (deg2rad a) = a.
Proof.
  unfold rad2deg, deg2rad. pose proof PI_RGT_0 as Hpi. field. lra.
Qed.

Lemma rad2deg_deg2rad_div (a s : R) :
  s <> 0 -> rad2deg (deg2rad a / s) = a / s.
Proof.
  intros Hs. unfold rad2deg, deg2rad. pose proof PI_RGT_0 as Hpi.
  field. split; lra.
Qed.

Lemma deg2rad_0 : deg2rad 0 = 0.
Proof. unfold deg2rad. lra. Qed.

Section LiftProperties.

Variable interp2d :
  option (list R) -> option (list R) -> option (list (list R)) ->
  result (R -> option R -> result R).
Variable np_interp : R -> list R -> list R -> R.

Variables (self : Aerodynamics).
Variables (Cl_database : option (list (list R))) (r_R : option (list R)).
Variables (x : option R).

(** The Mach correction of lines 101-102 and the return of line 104, for a
    subsonic Mach number. *)
Lemma lift_properties_tail (M Cl_alpha alpha_0_lift : R) :
  0 <= M < 1 ->
  (Cl_alpha' <- (if M_corr self
                 then s <- math_sqrt (1 - M ^ 2) ;; truediv Cl_alpha s
                 else Ok Cl_alpha) ;;
   Ok (rad2deg Cl_alpha', deg2rad alpha_0_lift))
  = Ok (rad2deg (if M_corr self then Cl_alpha / sqrt (1 - M ^ 2)
                 else Cl_alpha),
        deg2rad alpha_0_lift).
Proof.
  intros HM. pose proof (sqrt_compl_pos M HM) as Hs.
  destruct (M_corr self); cbn [bind]; [|reflexivity].
  rewrite math_sqrt_ok by nra. cbn [bind].
  rewrite truediv_ok by lra. reflexivity.
Qed.

(** X1: under the flat-plate method [eval_lift_properties] returns the
    slope [2 pi] per radian (the conversion to degrees and back cancels)
    and a zero-lift angle of [0], whatever table, station, slope or angle
    is passed; with the Mach flag set the slope is divided by
    [sqrt(1 - M^2)]. *)
Theorem lift_properties_flat_plate (M : R) (a0 cla : option R) :
  aero_method self = "flat_plate"%string ->
  0 <= M < 1 ->
  eval_lift_properties interp2d np_interp self Cl_database r_R x (Some M)
    a0 cla
  = Ok (if M_corr self then 2 * PI / sqrt (1 - M ^ 2) else 2 * PI, 0).
Proof.
  intros Hm HM. pose proof (sqrt_compl_pos M HM) as Hs.
  unfold eval_lift_properties. cbn [bind]. rewrite Hm.
  change (String.eqb "flat_plate" "flat_plate") with true. cbv iota.
  cbn [bind]. rewrite lift_properties_tail by exact HM.
  rewrite deg2rad_0.
  destruct (M_corr self).
  - rewrite rad2deg_deg2rad_div by lra. reflexivity.
  - rewrite rad2deg_deg2rad. reflexivity.
Qed.

(** X2: under the xRotor method [eval_lift_properties] needs only
    [Cl_alpha] and [alpha_0_lift]: when either is missing it raises
    [ValueError]; otherwise it hands back the slope unchanged (divided by
    [sqrt(1 - M^2)] with the Mach flag set), and the zero-lift angle
    multiplied by [pi/180]. *)
Theorem lift_properties_xRotor (M : R) (a0 cla : option R) :
  aero_method self = "xRotor"%string ->
  0 <= M < 1 ->
  (cla = None \/ a0 = None ->
   eval_lift_properties interp2d np_interp self Cl_database r_R x (Some M)
     a0 cla
   = Raise ValueError)
  /\
  (forall Cl_alpha alpha_0_lift,
     cla = Some Cl_alpha -> a0 = Some alpha_0_lift ->
     eval_lift_properties interp2d np_interp self Cl_database r_R x (Some M)
       a0 cla
     = Ok (if M_corr self then Cl_alpha / sqrt (1 - M ^ 2) else Cl_alpha,
           alpha_0_lift * (PI / 180))).
Proof.
  intros Hm HM. pose proof (sqrt_compl_pos M HM) as Hs.
  unfold eval_lift_properties. cbn [bind]. rewrite Hm.
  change (String.eqb "xRotor" "flat_plate") with false.
  change (String.eqb "xRotor" "xFoil") with false.
  change (String.eqb "xRotor" "xRotor") with true. cbv iota.
  split.
  - intros [-> | ->]; [reflexivity|]. destruct cla; reflexivity.
  - intros c a -> ->. cbn [bind].
    rewrite lift_properties_tail by exact HM.
    destruct (M_corr self).
    + rewrite rad2deg_deg2rad_div by lra. reflexivity.
    + rewrite rad2deg_deg2rad. reflexivity.
Qed.

(** X3: the Mach number in [eval_lift_properties]: left at its default
    [None] it raises [TypeError] for every method and every other
    argument; with the Mach flag cleared the result does not depend on it;
    with the flag set under the flat-plate method, [M > 1] raises
    [ValueError] (the square root of a negative number). *)
Theorem lift_properties_mach (a0 cla : option R) :
  eval_lift_properties interp2d np_interp self Cl_database r_R x None a0 cla
  = Raise TypeError
  /\
  (M_corr self = false ->
   forall M M',
     eval_lift_properties interp2d np_interp self Cl_database r_R x (Some M)
       a0 cla
     = eval_lift_properties interp2d np_interp self Cl_database r_R x
         (Some M') a0 cla)
  /\
  (M_corr self = true ->
   aero_method self = "flat_plate"%string ->
   forall M, 1 < M ->
     eval_lift_properties interp2d np_interp self Cl_database r_R x (Some M)
       a0 cla
     = Raise ValueError).
Proof.
  split; [reflexivity|]. split.
  - intros Hmc M M'. unfold eval_lift_properties. cbn [bind].
    rewrite Hmc. reflexivity.
  - intros Hmc Hm. unfold eval_lift_properties. cbn [bind].
    rewrite Hm, Hmc.
    change (String.eqb "flat_plate" "flat_plate") with true. cbv iota.
    cbn [bind]. intros M HM. unfold math_sqrt.
    destruct (Rlt_dec (1 - M ^ 2) 0) as [_|N]; [reflexivity|].
    exfalso. apply N. nra.
Qed.

End LiftProperties.

Lemma lift_properties_flat_plate_witness :
  0 <= 0.6 < 1 /\
  eval_lift_properties_plain (flat_plate_evaluator true true) (Some 0.6)
    None None
  = Ok (2 * PI / sqrt (1 - 0.6 ^ 2), 0).
Proof.
  split; [lra|].
  apply (lift_properties_flat_plate interp2d_linear np_interp_linear
           (flat_plate_evaluator true true) None None None 0.6 None None
           eq_refl).
  lra.
Defined.

Lemma lift_properties_xRotor_witness :
  0 <= 0.6 < 1 /\
  eval_lift_properties_plain (xRotor_evaluator false false) (Some 0.6)
    (Some 2) (Some 6.28)
  = Ok (6.28, 2 * (PI / 180)).
Proof.
  split; [lra|].
  apply (proj2 (lift_properties_xRotor interp2d_linear np_interp_linear
                  (xRotor_evaluator false false) None None None 0.6
                  (Some 2) (Some 6.28) eq_refl ltac:(lra)));
    reflexivity.
Defined.

Lemma lift_properties_mach_witness :
  1 < 2 /\
  eval_lift_properties_plain (flat_plate_evaluator true false) (Some 2)
    None None
  = Raise ValueError.
Proof.
  split; [lra|].
  apply (proj2 (proj2
           (lift_properties_mach interp2d_linear np_interp_linear
              (flat_plate_evaluator true false) None None None None None))
           eq_refl eq_refl).
  lra.
Defined.

(** ** [eval_coeffs]: Mach numbers at and above one, missing tables *)

Lemma math_sqrt_supersonic (M : R) :
  1 < M -> math_sqrt (1 - M ^ 2) = Raise ValueError.
Proof.
  intros HM. unfold math_sqrt.
  destruct (Rlt_dec (1 - M ^ 2) 0) as [_|N]; [reflexivity|].
  exfalso. apply N. nra.
Qed.

Lemma math_sqrt_sonic : math_sqrt (1 - 1 ^ 2) = Ok 0.
Proof.
  replace (1 - 1 ^ 2) with 0 by lra.
  rewrite math_sqrt_ok by lra. rewrite sqrt_0. reflexivity.
Qed.

(** X4: [eval_coeffs] has no result at a Mach number of one or more under
    the flat-plate method and under the xRotor method with its parameters
    supplied, whatever the flags and the other arguments: [M = 1] raises
    [ZeroDivisionError] and [M > 1] raises [ValueError] (the square root of
    a negative number). *)
Theorem eval_coeffs_mach_domain
    (interp2d : option (list R) -> option (list R) ->
                option (list (list R)) -> result (R -> option R -> result R))
    (self : Aerodynamics) (AoA Re_ref Re : R)
    (x : option R) (r_R : option (list R))
    (Cl_database Cd_database : option (list (list R)))
    (a0 cla clas clmax clmin clincr cdmin clcd dcd mcrit rexp : option R) :
  (aero_method self = "flat_plate"%string \/
   (aero_method self = "xRotor"%string /\
    ~ some_missing
        [cla; a0; clas; clmax; clmin; clincr; cdmin; clcd; dcd; mcrit;
         rexp])) ->
  eval_coeffs interp2d self AoA Re_ref Re 1 x r_R Cl_database Cd_database
    a0 cla clas clmax clmin clincr cdmin clcd dcd mcrit rexp
  = Raise ZeroDivisionError
  /\
  forall M, 1 < M ->
    eval_coeffs interp2d self AoA Re_ref Re M x r_R Cl_database Cd_database
      a0 cla clas clmax clmin clincr cdmin clcd dcd mcrit rexp
    = Raise ValueError.
Proof.
  intros [Hm | [Hm Hall]].
  - split.
    + rewrite eval_coeffs_flat_plate by exact Hm.
      rewrite math_sqrt_sonic. cbn [bind]. rewrite truediv_zero. reflexivity.
    + intros M HM. rewrite eval_coeffs_flat_plate by exact Hm.
      rewrite math_sqrt_supersonic by exact HM. reflexivity.
  - assert (Hsome : forall v,
              In v [cla; a0; clas; clmax; clmin; clincr; cdmin; clcd; dcd;
                    mcrit; rexp] -> exists r, v = Some r).
    { intros v Hin. destruct v as [r|]; [exists r; reflexivity|].
      exfalso. apply Hall. exists None. split; [exact Hin | reflexivity]. }
    destruct (Hsome cla) as [? ->]; [simpl; tauto|].
    destruct (Hsome a0) as [? ->]; [simpl; tauto|].
    destruct (Hsome clas) as [? ->]; [simpl; tauto|].
    destruct (Hsome clmax) as [? ->]; [simpl; tauto|].
    destruct (Hsome clmin) as [? ->]; [simpl; tauto|].
    destruct (Hsome clincr) as [? ->]; [simpl; tauto|].
    destruct (Hsome cdmin) as [? ->]; [simpl; tauto|].
    destruct (Hsome clcd) as [? ->]; [simpl; tauto|].
    destruct (Hsome dcd) as [? ->]; [simpl; tauto|].
    destruct (Hsome mcrit) as [? ->]; [simpl; tauto|].
    destruct (Hsome rexp) as [? ->]; [simpl; tauto|].
    split.
    + rewrite eval_coeffs_xRotor by exact Hm. unfold xRotor_branch.
      rewrite math_sqrt_sonic. cbn [bind]. rewrite truediv_zero. reflexivity.
    + intros M HM. rewrite eval_coeffs_xRotor by exact Hm.
      unfold xRotor_branch.
      rewrite math_sqrt_supersonic by exact HM. reflexivity.
Qed.

Lemma eval_coeffs_mach_domain_witness :
  eval_coeffs_positional (flat_plate_evaluator false false) 0.1 1e+6 1e+6 1
  = Raise ZeroDivisionError
  /\
  forall M, 1 < M ->
    eval_coeffs_positional (flat_plate_evaluator false false) 0.1 1e+6 1e+6 M
    = Raise ValueError.
Proof.
  apply (eval_coeffs_mach_domain interp2d_linear
           (flat_plate_evaluator false false) 0.1 1e+6 1e+6
           None None None None
           None None None None None None None None None None None).
  left. reflexivity.
Defined.

(** X5: under the xFoil method, a call of [eval_coeffs] in which the angle
    vector of the evaluator, the station, the station axis or one of the two
    tables is missing raises [ValueError] before any interpolation; in
    particular every call on an evaluator constructed without its angle
    vector does. *)
Theorem xFoil_missing_table_rejected
    (interp2d : option (list R) -> option (list R) ->
                option (list (list R)) -> result (R -> option R -> result R))
    (self : Aerodynamics) (AoA Re_ref Re M : R)
    (x : option R) (r_R : option (list R))
    (Cl_database Cd_database : option (list (list R)))
    (a0 cla clas clmax clmin clincr cdmin clcd dcd mcrit rexp : option R) :
  aero_method self = "xFoil"%string ->
  (alpha_vec self = None \/ x = None \/ r_R = None \/
   Cl_database = None \/ Cd_database = None ->
   eval_coeffs interp2d self AoA Re_ref Re M x r_R Cl_database Cd_database
     a0 cla clas clmax clmin clincr cdmin clcd dcd mcrit rexp
   = Raise ValueError)
  /\
  (forall mc rc,
     Aerodynamics_init "xFoil" None mc rc = Ok self ->
     eval_coeffs interp2d self AoA Re_ref Re M x r_R Cl_database Cd_database
       a0 cla clas clmax clmin clincr cdmin clcd dcd mcrit rexp
     = Raise ValueError).
Proof.
  intros Hm.
  assert (Hnone : alpha_vec self = None \/ x = None \/ r_R = None \/
                  Cl_database = None \/ Cd_database = None ->
                  eval_coeffs interp2d self AoA Re_ref Re M x r_R
                    Cl_database Cd_database
                    a0 cla clas clmax clmin clincr cdmin clcd dcd mcrit rexp
                  = Raise ValueError).
  { intros H. rewrite eval_coeffs_xFoil by exact Hm.
    destruct (alpha_vec self) as [av|]; [|reflexivity].
    destruct x as [xq|]; [|reflexivity].
    destruct r_R as [ys|]; [|reflexivity].
    destruct Cl_database as [zl|]; [|reflexivity].
    destruct Cd_database as [zd|]; [|reflexivity].
    exfalso. destruct H as [H|[H|[H|[H|H]]]]; discriminate H. }
  split; [exact Hnone|].
  intros mc rc Hinit. apply Hnone. left.
  unfold Aerodynamics_init in Hinit. injection Hinit as <-. reflexivity.
Qed.

Lemma xFoil_missing_table_rejected_witness :
  eval_coeffs interp2d_linear (xFoil_evaluator example_alpha_vec true true)
    0 1e+6 1e+6 0.6 None (Some example_r_R)
    (Some example_Cl_database) (Some example_Cd_database)
    None None None None None None None None None None None
  = Raise ValueError.
Proof.
  apply (proj1 (xFoil_missing_table_rejected interp2d_linear
                  (xFoil_evaluator example_alpha_vec true true)
                  0 1e+6 1e+6 0.6 None (Some example_r_R)
                  (Some example_Cl_database) (Some example_Cd_database)
                  None None None None None None None None None None None
                  eq_refl)).
  right. left. reflexivity.
Defined.

(** ** The flat-plate lift curve *)

Lemma clamp_bounds (v lo hi : R) : lo <= hi -> lo <= clamp v lo hi <= hi.
Proof.
  intros H. unfold clamp. split.
  - apply Rmax_l.
  - apply Rmax_lub; [exact H | apply Rmin_r].
Qed.

Lemma clamp_monotone (v w lo hi : R) :
  v <= w -> clamp v lo hi <= clamp w lo hi.
Proof.
  intros H. unfold clamp. apply Rle_max_compat_l, Rle_min_compat_r, H.
Qed.

Lemma clamp_inside (v lo hi : R) : lo <= v <= hi -> clamp v lo hi = v.
Proof.
  intros [H1 H2]. unfold clamp.
  rewrite Rmin_left by exact H2. apply Rmax_right, H1.
Qed.

Lemma clamp_above (v lo hi : R) : lo <= hi -> hi <= v -> clamp v lo hi = hi.
Proof.
  intros H1 H2. unfold clamp.
  rewrite Rmin_right by exact H2. apply Rmax_right, H1.
Qed.

Lemma clamp_below (v lo hi : R) : lo <= hi -> v <= lo -> clamp v lo hi = lo.
Proof.
  intros H1 H2. unfold clamp.
  rewrite Rmin_left by lra. apply Rmax_left, H2.
Qed.

Lemma clamp_odd (v h : R) : 0 <= h -> clamp (- v) (- h) h = - clamp v (- h) h.
Proof.
  intros H.
  destruct (Rle_lt_dec v (- h)) as [L|L].
  - rewrite (clamp_below v) by lra. rewrite clamp_above by lra. lra.
  - destruct (Rle_lt_dec h v) as [U|U].
    + rewrite (clamp_above v) by lra. rewrite clamp_below by lra. lra.
    + rewrite !clamp_inside by lra. reflexivity.
Qed.

(** What a returning flat-plate evaluation has computed. *)
Lemma flat_plate_inv
    (interp2d : option (list R) -> option (list R) ->
                option (list (list R)) -> result (R -> option R -> result R))
    (self : Aerodynamics) (AoA Re_ref Re M : R)
    (x : option R) (r_R : option (list R))
    (Cl_database Cd_database : option (list (list R)))
    (a0 cla clas clmax clmin clincr cdmin clcd dcd mcrit rexp : option R)
    (Cl : R) (Cd : pynum) :
  aero_method self = "flat_plate"%string ->
  eval_coeffs interp2d self AoA Re_ref Re M x r_R Cl_database Cd_database
    a0 cla clas clmax clmin clincr cdmin clcd dcd mcrit rexp
  = Ok (Cl, Cd) ->
  0 < sqrt (1 - M ^ 2) /\
  Cl = if M_corr self
       then clamp (2 * PI * AoA / sqrt (1 - M ^ 2)) (-3.5) 3.5
            / sqrt (1 - M ^ 2)
       else clamp (2 * PI * AoA / sqrt (1 - M ^ 2)) (-3.5) 3.5.
Proof.
  intros Hm H. rewrite eval_coeffs_flat_plate in H by exact Hm.
  step_bind H s Hs. apply math_sqrt_inv in Hs. destruct Hs as [Hs ->].
  step_bind H q Hq. apply truediv_inv in Hq. destruct Hq as [Hq ->].
  assert (Hpos : 0 < sqrt (1 - M ^ 2)).
  { pose proof (sqrt_pos (1 - M ^ 2)). lra. }
  split; [exact Hpos|].
  unfold post_processing in H. cbn [fst snd] in H.
  step_bind H cd Hcd. step_bind H cl Hcl.
  injection H as <- <-. rewrite clamp_as_coded in Hcl.
  destruct (M_corr self).
  - step_bind Hcl s' Hs'. apply math_sqrt_inv in Hs'.
    destruct Hs' as [_ ->]. apply truediv_inv in Hcl.
    destruct Hcl as [_ ->]. reflexivity.
  - injection Hcl as <-. reflexivity.
Qed.

(** X6: the flat-plate lift coefficient returned by [eval_coeffs] lies in
    [[-3.5, 3.5]] when the Mach flag is cleared; with the flag set it is the
    product [Cl sqrt(1 - M^2)] that lies in [[-3.5, 3.5]]. *)
Theorem flat_plate_lift_bounded
    (interp2d : option (list R) -> option (list R) ->
                option (list (list R)) -> result (R -> option R -> result R))
    (self : Aerodynamics) (AoA Re_ref Re M : R)
    (x : option R) (r_R : option (list R))
    (Cl_database Cd_database : option (list (list R)))
    (a0 cla clas clmax clmin clincr cdmin clcd dcd mcrit rexp : option R)
    (Cl : R) (Cd : pynum) :
  aero_method self = "flat_plate"%string ->
  eval_coeffs interp2d self AoA Re_ref Re M x r_R Cl_database Cd_database
    a0 cla clas clmax clmin clincr cdmin clcd dcd mcrit rexp
  = Ok (Cl, Cd) ->
  (M_corr self = false -> -3.5 <= Cl <= 3.5) /\
  (M_corr self = true -> -3.5 <= Cl * sqrt (1 - M ^ 2) <= 3.5).
Proof.
  intros Hm H.
  destruct (flat_plate_inv _ _ _ _ _ _ _ _ _ _ _ _ _ _ _ _ _ _ _ _ _ _ _
              Hm H) as [Hs HCl].
  pose proof (clamp_bounds (2 * PI * AoA / sqrt (1 - M ^ 2)) (-3.5) 3.5
                ltac:(lra)) as Hb.
  split; intros Hmc; rewrite Hmc in HCl; subst Cl.
  - exact Hb.
  - unfold Rdiv. rewrite Rmult_assoc, Rinv_l by lra. rewrite Rmult_1_r.
    exact Hb.
Qed.

Lemma flat_plate_lift_bounded_witness :
  exists Cl Cd,
    eval_coeffs_positional (flat_plate_evaluator false false) 1 1e+6 1e+6 0
    = Ok (Cl, Cd) /\ -3.5 <= Cl <= 3.5.
Proof.
  exists 3.5, (PyFloat 0.0200). split; [exact flat_plate_scenario_clamped|].
  apply (proj1 (flat_plate_lift_bounded interp2d_linear
                  (flat_plate_evaluator false false) 1 1e+6 1e+6 0
                  None None None None
                  None None None None None None None None None None None
                  3.5 (PyFloat 0.0200) eq_refl flat_plate_scenario_clamped)).
  reflexivity.
Defined.

(** X7: for a fixed evaluator and fixed flow conditions the flat-plate lift
    coefficient never decreases when the angle of attack grows, and changes
    sign with the angle of attack. *)
Theorem flat_plate_lift_monotone_odd
    (interp2d : option (list R) -> option (list R) ->
                option (list (list R)) -> result (R -> option R -> result R))
    (self : Aerodynamics) (AoA1 AoA2 Re_ref Re M : R)
    (x : option R) (r_R : option (list R))
    (Cl_database Cd_database : option (list (list R)))
    (a0 cla clas clmax clmin clincr cdmin clcd dcd mcrit rexp : option R)
    (Cl1 Cl2 : R) (Cd1 Cd2 : pynum) :
  aero_method self = "flat_plate"%string ->
  eval_coeffs interp2d self AoA1 Re_ref Re M x r_R Cl_database Cd_database
    a0 cla clas clmax clmin clincr cdmin clcd dcd mcrit rexp
  = Ok (Cl1, Cd1) ->
  eval_coeffs interp2d self AoA2 Re_ref Re M x r_R Cl_database Cd_database
    a0 cla clas clmax clmin clincr cdmin clcd dcd mcrit rexp
  = Ok (Cl2, Cd2) ->
  (AoA1 <= AoA2 -> Cl1 <= Cl2) /\ (AoA2 = - AoA1 -> Cl2 = - Cl1).
Proof.
  intros Hm H1 H2.
  destruct (flat_plate_inv _ _ _ _ _ _ _ _ _ _ _ _ _ _ _ _ _ _ _ _ _ _ _
              Hm H1) as [Hs E1].
  destruct (flat_plate_inv _ _ _ _ _ _ _ _ _ _ _ _ _ _ _ _ _ _ _ _ _ _ _
              Hm H2) as [_ E2].
  pose proof PI_RGT_0 as Hpi.
  assert (Hinv : 0 < / sqrt (1 - M ^ 2)) by (apply Rinv_0_lt_compat, Hs).
  split.
  - intros Hle.
    assert (Hq : 2 * PI * AoA1 / sqrt (1 - M ^ 2)
                 <= 2 * PI * AoA2 / sqrt (1 - M ^ 2)).
    { unfold Rdiv. apply Rmult_le_compat_r; [lra|].
      apply Rmult_le_compat_l; lra. }
    pose proof (clamp_monotone _ _ (-3.5) 3.5 Hq) as Hc.
    subst Cl1 Cl2. destruct (M_corr self); [|exact Hc].
    unfold Rdiv. apply Rmult_le_compat_r; [lra | exact Hc].
  - intros ->.
    assert (Hq : 2 * PI * - AoA1 / sqrt (1 - M ^ 2)
                 = - (2 * PI * AoA1 / sqrt (1 - M ^ 2)))
      by (unfold Rdiv; ring).
    rewrite Hq in E2. replace (-3.5) with (- (3.5)) in E2 by lra.
    rewrite clamp_odd in E2 by lra.
    replace (-3.5) with (- (3.5)) in E1 by lra.
    subst Cl1 Cl2. destruct (M_corr self); [|reflexivity].
    unfold Rdiv. ring.
Qed.

Lemma flat_plate_lift_monotone_odd_witness :
  2 * PI * 0.1 <= 3.5.
Proof.
  apply (proj1 (flat_plate_lift_monotone_odd interp2d_linear
                  (flat_plate_evaluator false false) 0.1 1 1e+6 1e+6 0
                  None None None None
                  None None None None None None None None None None None
                  (2 * PI * 0.1) 3.5 (PyFloat 0.0200) (PyFloat 0.0200)
                  eq_refl
                  flat_plate_scenario_linear flat_plate_scenario_clamped)).
  lra.
Defined.

(** X8: the two entry points compose, under the flat-plate method and
    inside the clamp: the lift coefficient of [eval_coeffs] is the slope
    returned by [eval_lift_properties] times the angle of attack measured
    from the returned zero-lift angle, divided once more by
    [sqrt(1 - M^2)], for either setting of the Mach flag. *)
Theorem flat_plate_lift_from_lift_properties
    (interp2d : option (list R) -> option (list R) ->
                option (list (list R)) -> result (R -> option R -> result R))
    (np_interp : R -> list R -> list R -> R)
    (self : Aerodynamics) (AoA Re_ref Re M : R)
    (x : option R) (r_R : option (list R))
    (Cl_database Cd_database : option (list (list R)))
    (a0 cla clas clmax clmin clincr cdmin clcd dcd mcrit rexp : option R) :
  aero_method self = "flat_plate"%string ->
  0 <= M < 1 ->
  (Rey_corr self = true -> Re <> 0 /\ Re_ref <> 0) ->
  -3.5 <= 2 * PI * AoA / sqrt (1 - M ^ 2) <= 3.5 ->
  exists Cl_alpha alpha_0_lift Cd,
    eval_lift_properties interp2d np_interp self Cl_database r_R x (Some M)
      a0 cla
    = Ok (Cl_alpha, alpha_0_lift) /\
    eval_coeffs interp2d self AoA Re_ref Re M x r_R Cl_database Cd_database
      a0 cla clas clmax clmin clincr cdmin clcd dcd mcrit rexp
    = Ok (Cl_alpha * (AoA - alpha_0_lift) / sqrt (1 - M ^ 2), Cd).
Proof.
  intros Hm HM Hrc Hin. pose proof (sqrt_compl_pos M HM) as Hs.
  destruct (post_processing_lift (M_corr self) (Rey_corr self) Re_ref Re M
              (clamp (2 * PI * AoA / sqrt (1 - M ^ 2)) (-3.5) 3.5)
              (PyFloat 0.0200) HM Hrc) as [Cd HCd].
  exists (if M_corr self then 2 * PI / sqrt (1 - M ^ 2) else 2 * PI), 0, Cd.
  split.
  - unfold eval_lift_properties. cbn [bind]. rewrite Hm.
    change (String.eqb "flat_plate" "flat_plate") with true. cbv iota.
    cbn [bind]. rewrite lift_properties_tail by exact HM.
    rewrite deg2rad_0.
    destruct (M_corr self).
    + rewrite rad2deg_deg2rad_div by lra. reflexivity.
    + rewrite rad2deg_deg2rad. reflexivity.
  - rewrite flat_plate_value by assumption. rewrite HCd.
    rewrite clamp_inside by exact Hin.
    do 2 f_equal. destruct (M_corr self); field; lra.
Qed.

Lemma flat_plate_lift_from_lift_properties_witness :
  0 <= 0 < 1 /\
  exists Cl_alpha alpha_0_lift Cd,
    eval_lift_properties_plain (flat_plate_evaluator true false) (Some 0)
      None None
    = Ok (Cl_alpha, alpha_0_lift) /\
    eval_coeffs_positional (flat_plate_evaluator true false) 0.1 1e+6 1e+6 0
    = Ok (Cl_alpha * (0.1 - alpha_0_lift) / sqrt (1 - 0 ^ 2), Cd).
Proof.
  split; [lra|].
  apply (flat_plate_lift_from_lift_properties interp2d_linear
           np_interp_linear (flat_plate_evaluator true false)
           0.1 1e+6 1e+6 0 None None None None
           None None None None None None None None None None None
           eq_refl ltac:(lra) ltac:(intros H; discriminate H)).
  rewrite sqrt_compl_0.
  pose proof PI2_3_2. pose proof PI_4. lra.
Defined.

(** ** The Reynolds correction of the drag *)

Lemma reynolds_f_negative (Re : R) : reynolds_f Re < 0.
Proof.
  unfold reynolds_f.
  destruct (Rlt_dec Re 1e+5); [lra|].
  destruct (Rge_dec Re 1e+5); [destruct (Rlt_dec Re 1e+6)|]; lra.
Qed.

Lemma Rpower_1_base (b : R) : Rpower 1 b = 1.
Proof. unfold Rpower. rewrite ln_1, Rmult_0_r. apply exp_0. Qed.

Lemma Rpower_neg_exponent (q f : R) :
  0 < q -> f < 0 ->
  (1 < q -> Rpower q f < 1) /\ (q < 1 -> 1 < Rpower q f).
Proof.
  intros Hq Hf. unfold Rpower. split; intros H.
  - pose proof (ln_increasing 1 q Rlt_0_1 H) as Hl. rewrite ln_1 in Hl.
    assert (Hx : f * ln q < 0) by nra.
    apply exp_increasing in Hx. rewrite exp_0 in Hx. exact Hx.
  - pose proof (ln_increasing q 1 Hq H) as Hl. rewrite ln_1 in Hl.
    assert (Hx : 0 < f * ln q) by nra.
    apply exp_increasing in Hx. rewrite exp_0 in Hx. exact Hx.
Qed.

(** At the reference Reynolds number the post-processing leaves a float
    drag coefficient as it is. *)
Lemma post_processing_at_reference (mc rc : bool) (R0 M cl cd : R) :
  R0 <> 0 ->
  post_processing mc rc R0 R0 M (cl, PyFloat cd)
  = post_processing mc false R0 R0 M (cl, PyFloat cd).
Proof.
  intros HR. destruct rc; [|reflexivity].
  unfold post_processing. cbn [fst snd].
  rewrite truediv_ok by exact HR. cbn [bind].
  replace (R0 / R0) with 1 by (field; exact HR).
  rewrite float_pow_pos by (try lra; apply reynolds_f_nonzero).
  cbn [bind num_mul]. rewrite Rpower_1_base, Rmult_1_r. reflexivity.
Qed.

(** X9: under the flat-plate and the xFoil methods, at [Re = Re_ref <> 0]
    the Reynolds flag changes nothing: the call has the outcome, result or
    error, of the same call on the evaluator with the flag cleared. *)
Theorem reynolds_correction_neutral_at_reference
    (interp2d : option (list R) -> option (list R) ->
                option (list (list R)) -> result (R -> option R -> result R))
    (self : Aerodynamics) (AoA Re_ref M : R)
    (x : option R) (r_R : option (list R))
    (Cl_database Cd_database : option (list (list R)))
    (a0 cla clas clmax clmin clincr cdmin clcd dcd mcrit rexp : option R) :
  aero_method self = "flat_plate"%string \/
  aero_method self = "xFoil"%string ->
  Re_ref <> 0 ->
  eval_coeffs interp2d self AoA Re_ref Re_ref M x r_R Cl_database
    Cd_database a0 cla clas clmax clmin clincr cdmin clcd dcd mcrit rexp
  = eval_coeffs interp2d (without_reynolds_correction self) AoA Re_ref
      Re_ref M x r_R Cl_database Cd_database
      a0 cla clas clmax clmin clincr cdmin clcd dcd mcrit rexp.
Proof.
  intros [Hm|Hm] HR.
  - rewrite !eval_coeffs_flat_plate by exact Hm.
    cbn [without_reynolds_correction M_corr Rey_corr].
    destruct (math_sqrt (1 - M ^ 2)) as [s|e]; [|reflexivity]. cbn [bind].
    destruct (truediv (2 * PI * AoA) s) as [q|e]; [|reflexivity].
    cbn [bind]. apply post_processing_at_reference, HR.
  - rewrite !eval_coeffs_xFoil by exact Hm.
    cbn [without_reynolds_correction M_corr Rey_corr alpha_vec].
    destruct (alpha_vec self) as [av|]; [|reflexivity].
    destruct x as [xq|]; [|reflexivity].
    destruct r_R as [ys|]; [|reflexivity].
    destruct Cl_database as [zl|]; [|reflexivity].
    destruct Cd_database as [zd|]; [|reflexivity].
    destruct (interp2d (Some av) (Some ys) (Some zl)) as [f_cl|e];
      [|reflexivity]. cbn [bind].
    destruct (interp2d (Some av) (Some ys) (Some zd)) as [f_cd|e];
      [|reflexivity]. cbn [bind].
    destruct (f_cl AoA (Some xq)) as [l|e]; [|reflexivity]. cbn [bind].
    destruct (f_cd AoA (Some xq)) as [d|e]; [|reflexivity]. cbn [bind].
    apply post_processing_at_reference, HR.
Qed.

Lemma reynolds_correction_neutral_at_reference_witness :
  eval_coeffs_positional (flat_plate_evaluator true true) 0.1 1e+6 1e+6 0.6
  = eval_coeffs_positional (flat_plate_evaluator true false)
      0.1 1e+6 1e+6 0.6.
Proof.
  apply (reynolds_correction_neutral_at_reference interp2d_linear
           (flat_plate_evaluator true true) 0.1 1e+6 0.6
           None None None None
           None None None None None None None None None None None).
  - left. reflexivity.
  - lra.
Defined.

(** X10: under the flat-plate method with the Reynolds flag set and a
    subsonic Mach number, [eval_coeffs] returns exactly when both Reynolds
    numbers are non-zero: with [Re_ref = 0] the quotient, and with [Re = 0]
    the negative power of zero, raises [ZeroDivisionError] (the xRotor
    branch, by contrast, guards [Re <= 0]). *)
Theorem flat_plate_reynolds_flag_domain
    (interp2d : option (list R) -> option (list R) ->
                option (list (list R)) -> result (R -> option R -> result R))
    (self : Aerodynamics) (AoA Re_ref Re M : R)
    (x : option R) (r_R : option (list R))
    (Cl_database Cd_database : option (list (list R)))
    (a0 cla clas clmax clmin clincr cdmin clcd dcd mcrit rexp : option R) :
  aero_method self = "flat_plate"%string ->
  Rey_corr self = true ->
  0 <= M < 1 ->
  (Re = 0 \/ Re_ref = 0 ->
   eval_coeffs interp2d self AoA Re_ref Re M x r_R Cl_database Cd_database
     a0 cla clas clmax clmin clincr cdmin clcd dcd mcrit rexp
   = Raise ZeroDivisionError)
  /\
  (Re <> 0 -> Re_ref <> 0 ->
   exists Cl Cd,
     eval_coeffs interp2d self AoA Re_ref Re M x r_R Cl_database Cd_database
       a0 cla clas clmax clmin clincr cdmin clcd dcd mcrit rexp
     = Ok (Cl, Cd)).
Proof.
  intros Hm Hrc HM. rewrite flat_plate_value by assumption. split.
  - intros H. unfold post_processing. rewrite Hrc. cbn [fst snd].
    destruct (Req_dec_T Re_ref 0) as [E|N].
    + subst Re_ref. rewrite truediv_zero. reflexivity.
    + destruct H as [H|H]; [|contradiction]. subst Re.
      rewrite truediv_ok by exact N. cbn [bind].
      replace (0 / Re_ref) with 0 by (unfold Rdiv; ring).
      unfold float_pow.
      pose proof (reynolds_f_negative 0) as Hf.
      destruct (Req_dec_T (reynolds_f 0) 0); [lra|].
      destruct (Req_dec_T 0 0) as [_|N0]; [|exfalso; apply N0; reflexivity].
      destruct (Rlt_dec (reynolds_f 0) 0); [reflexivity | lra].
  - intros HRe HRef.
    destruct (post_processing_lift (M_corr self) (Rey_corr self) Re_ref Re M
                (clamp (2 * PI * AoA / sqrt (1 - M ^ 2)) (-3.5) 3.5)
                (PyFloat 0.0200) HM) as [Cd HCd].
    + intros _. split; assumption.
    + eexists. exists Cd. exact HCd.
Qed.

Lemma flat_plate_reynolds_flag_domain_witness :
  0 <= 0.6 < 1 /\
  eval_coeffs_positional (flat_plate_evaluator false true) 0.1 1e+6 0 0.6
  = Raise ZeroDivisionError.
Proof.
  split; [lra|].
  apply (proj1 (flat_plate_reynolds_flag_domain interp2d_linear
                  (flat_plate_evaluator false true) 0.1 1e+6 0 0.6
                  None None None None
                  None None None None None None None None None None None
                  eq_refl eq_refl ltac:(lra))).
  left. reflexivity.
Defined.

(** X11: under the flat-plate method with the Reynolds flag set, a subsonic
    Mach number and positive Reynolds numbers, the drag coefficient is a
    float below [0.02] when [Re] is above the reference and above [0.02]
    when [Re] is below it: the exponent is negative in all three regimes. *)
Theorem flat_plate_reynolds_direction
    (interp2d : option (list R) -> option (list R) ->
                option (list (list R)) -> result (R -> option R -> result R))
    (self : Aerodynamics) (AoA Re_ref Re M : R)
    (x : option R) (r_R : option (list R))
    (Cl_database Cd_database : option (list (list R)))
    (a0 cla clas clmax clmin clincr cdmin clcd dcd mcrit rexp : option R) :
  aero_method self = "flat_plate"%string ->
  Rey_corr self = true ->
  0 <= M < 1 -> 0 < Re -> 0 < Re_ref ->
  exists Cl Cd,
    eval_coeffs interp2d self AoA Re_ref Re M x r_R Cl_database Cd_database
      a0 cla clas clmax clmin clincr cdmin clcd dcd mcrit rexp
    = Ok (Cl, PyFloat Cd) /\
    0 < Cd /\
    (Re_ref < Re -> Cd < 0.0200) /\ (Re < Re_ref -> 0.0200 < Cd).
Proof.
  intros Hm Hrc HM HRe HRef. rewrite flat_plate_value by assumption.
  rewrite post_processing_value by assumption. rewrite Hrc.
  eexists. eexists. split; [reflexivity|].
  assert (Hq : 0 < Re / Re_ref) by (apply Rdiv_lt_0_compat; assumption).
  pose proof (reynolds_f_negative Re) as Hf.
  destruct (Rpower_neg_exponent (Re / Re_ref) (reynolds_f Re) Hq Hf)
    as [Hhi Hlo].
  assert (Hp : 0 < Rpower (Re / Re_ref) (reynolds_f Re))
    by (unfold Rpower; apply exp_pos).
  split; [nra|]. split; intros H.
  - assert (H1 : 1 < Re / Re_ref).
    { apply (Rmult_lt_reg_r Re_ref); [exact HRef|].
      unfold Rdiv. rewrite Rmult_assoc, Rinv_l by lra. lra. }
    specialize (Hhi H1). nra.
  - assert (H1 : Re / Re_ref < 1).
    { apply (Rmult_lt_reg_r Re_ref); [exact HRef|].
      unfold Rdiv. rewrite Rmult_assoc, Rinv_l by lra. lra. }
    specialize (Hlo H1). nra.
Qed.

Lemma flat_plate_reynolds_direction_witness :
  0 <= 0.6 < 1 /\
  exists Cl Cd,
    eval_coeffs_positional (flat_plate_evaluator false true) 0.1 1e+6 2e+6 0.6
    = Ok (Cl, PyFloat Cd) /\
    0 < Cd /\ (1e+6 < 2e+6 -> Cd < 0.0200) /\ (2e+6 < 1e+6 -> 0.0200 < Cd).
Proof.
  split; [lra|].
  apply (flat_plate_reynolds_direction interp2d_linear
           (flat_plate_evaluator false true) 0.1 1e+6 2e+6 0.6
           None None None None
           None None None None None None None None None None None
           eq_refl eq_refl); lra.
Defined.

Lemma frac_part_m04 : frac_part (-0.4) = 0.6.
Proof.
  destruct (Int_part_frac_part_spec (-0.4) (-1) 0.6) as [_ H]; [lra | lra |].
  symmetry. exact H.
Qed.

(** X12: under the flat-plate method with the Reynolds flag set, a negative
    [Re] over a positive [Re_ref] is raised to the fractional power [-0.4],
    and the drag coefficient returned is a complex number with a non-zero
    imaginary part; no error is raised. *)
Theorem flat_plate_negative_reynolds_complex_drag
    (interp2d : option (list R) -> option (list R) ->
                option (list (list R)) -> result (R -> option R -> result R))
    (self : Aerodynamics) (AoA Re_ref Re M : R)
    (x : option R) (r_R : option (list R))
    (Cl_database Cd_database : option (list (list R)))
    (a0 cla clas clmax clmin clincr cdmin clcd dcd mcrit rexp : option R) :
  aero_method self = "flat_plate"%string ->
  Rey_corr self = true ->
  0 <= M < 1 -> Re < 0 -> 0 < Re_ref ->
  exists Cl re im,
    eval_coeffs interp2d self AoA Re_ref Re M x r_R Cl_database Cd_database
      a0 cla clas clmax clmin clincr cdmin clcd dcd mcrit rexp
    = Ok (Cl, PyComplex re im) /\ im <> 0.
Proof.
  intros Hm Hrc HM HRe HRef. pose proof (sqrt_compl_pos M HM) as Hs.
  rewrite flat_plate_value by assumption.
  unfold post_processing. rewrite Hrc. cbn [fst snd].
  rewrite truediv_ok by lra. cbn [bind].
  rewrite (proj1 (reynolds_f_cases Re)) by lra.
  assert (Hq : Re / Re_ref < 0).
  { unfold Rdiv. assert (0 < / Re_ref) by (apply Rinv_0_lt_compat, HRef).
    nra. }
  unfold float_pow.
  destruct (Req_dec_T (-0.4) 0) as [E|_]; [lra|].
  destruct (Req_dec_T (Re / Re_ref) 0) as [E|_]; [lra|].
  destruct (Rlt_dec 0 (Re / Re_ref)) as [L|_]; [lra|].
  rewrite frac_part_m04.
  destruct (Req_dec_T 0.6 0) as [E|_]; [lra|].
  cbn [bind num_mul num_re num_im].
  assert (Hcl : exists cl,
            (if M_corr self
             then s <- math_sqrt (1 - M ^ 2) ;;
                  truediv (clamp (2 * PI * AoA / sqrt (1 - M ^ 2))
                             (-3.5) 3.5) s
             else Ok (clamp (2 * PI * AoA / sqrt (1 - M ^ 2)) (-3.5) 3.5))
            = Ok cl).
  { destruct (M_corr self); [|eexists; reflexivity].
    rewrite math_sqrt_ok by nra. cbn [bind].
    rewrite truediv_ok by lra. eexists; reflexivity. }
  destruct Hcl as [cl Hcl]. rewrite Hcl. cbn [bind].
  eexists. eexists. eexists. split; [reflexivity|].
  assert (Hp : 0 < Rpower (- (Re / Re_ref)) (-0.4))
    by (unfold Rpower; apply exp_pos).
  assert (Hsin : sin (-0.4 * PI) < 0).
  { replace (-0.4 * PI) with (- (0.4 * PI)) by lra. rewrite sin_neg.
    pose proof PI_RGT_0 as Hpi.
    pose proof (sin_gt_0 (0.4 * PI) ltac:(lra) ltac:(lra)). lra. }
  nra.
Qed.

Lemma flat_plate_negative_reynolds_complex_drag_witness :
  0 <= 0.6 < 1 /\
  exists Cl re im,
    eval_coeffs_positional (flat_plate_evaluator false true)
      0.1 1e+6 (-2e+6) 0.6
    = Ok (Cl, PyComplex re im) /\ im <> 0.
Proof.
  split; [lra|].
  apply (flat_plate_negative_reynolds_complex_drag interp2d_linear
           (flat_plate_evaluator false true) 0.1 1e+6 (-2e+6) 0.6
           None None None None
           None None None None None None None None None None None
           eq_refl eq_refl); lra.
Defined.

(** ** The xRotor model: stall bounds and saturation *)

Lemma xRotor_eval_at_rest (p : EmpiricalAirfoilParameters)
    (AoA Re_ref M : R) :
  0 <= M < 1 -> Cl_alpha p <> 0 -> Cl_incr_to_stall p <> 0 ->
  xRotor_eval p AoA Re_ref 0 M = Ok (xRotor_formulas p AoA M (PyFloat 1)).
Proof.
  intros HM Ha Hi. apply xRotor_eval_ok; try assumption.
  apply reynolds_RCORR_at_rest.
Qed.

Lemma usage_evaluation_returns :
  xRotor_eval usage_parameters 0.1 1e+6 0 0.5
  = Ok (xRotor_formulas usage_parameters 0.1 0.5 (PyFloat 1)).
Proof.
  apply xRotor_eval_at_rest;
    cbn [usage_parameters Cl_alpha Cl_incr_to_stall]; lra.
Qed.

Lemma Rmin_0_opp (t : R) : Rmin 0 (- t) = - Rmax 0 t.
Proof.
  unfold Rmin, Rmax.
  destruct (Rle_dec 0 (- t)), (Rle_dec 0 t); lra.
Qed.

Lemma CLMINM_of_mirror (p : EmpiricalAirfoilParameters) (M : R) :
  CLMINM_of p M - Cl_at_cd_min p = - (CLMAXM_of p M - Cl_at_cd_min p).
Proof.
  unfold CLMINM_of, CLMAXM_of.
  replace ((- (Mach_crit p + DMSTALL_of - M)) / CLMFACTOR)
    with (- ((Mach_crit p + DMSTALL_of - M) / CLMFACTOR))
    by (unfold Rdiv; ring).
  rewrite Rmin_0_opp. ring.
Qed.

(** X13: the Mach-derated stall bounds of a returning xRotor evaluation:
    [CLMAX] never exceeds [Cl_max] and [CLMIN] never falls below [Cl_min];
    [CLMAXM] and [CLMINM] are mirror images about [Cl_at_cd_min], so a
    [Cl_at_cd_min] between [Cl_min] and [Cl_max] stays between [CLMIN] and
    [CLMAX]; and from [M = Mach_crit + DMSTALL] on, both derated bounds
    have collapsed onto [Cl_at_cd_min]. *)
Theorem xRotor_stall_bounds (p : EmpiricalAirfoilParameters)
    (AoA Re_ref Re M : R) (L : xRotor_locals) :
  xRotor_eval p AoA Re_ref Re M = Ok L ->
  CLMAX L <= Cl_max p /\ Cl_min p <= CLMIN L /\
  CLMINM L - Cl_at_cd_min p = - (CLMAXM L - Cl_at_cd_min p) /\
  CLMINM L <= Cl_at_cd_min p <= CLMAXM L /\
  (Cl_min p <= Cl_at_cd_min p <= Cl_max p ->
   CLMIN L <= Cl_at_cd_min p <= CLMAX L) /\
  (Mach_crit p + DMSTALL L <= M ->
   CLMAXM L = Cl_at_cd_min p /\ CLMINM L = Cl_at_cd_min p /\
   CLMAX L = Rmin (Cl_max p) (Cl_at_cd_min p) /\
   CLMIN L = Rmax (Cl_min p) (Cl_at_cd_min p)).
Proof.
  intros E.
  destruct (xRotor_eval_inv p AoA Re_ref Re M L E) as (_ & _ & _ & _ & HL).
  remember (RCORR L) as rc eqn:Hrc. subst L.
  cbn [xRotor_formulas CLMAX CLMIN CLMAXM CLMINM DMSTALL].
  pose proof (CLMINM_of_mirror p M) as Hmir.
  assert (Hup : Cl_at_cd_min p <= CLMAXM_of p M).
  { unfold CLMAXM_of.
    pose proof (Rmax_l 0 ((Mach_crit p + DMSTALL_of - M) / CLMFACTOR)). lra. }
  assert (Hlo : CLMINM_of p M <= Cl_at_cd_min p) by lra.
  split; [apply Rmin_l|]. split; [apply Rmax_l|].
  split; [exact Hmir|]. split; [split; assumption|]. split.
  - intros [H1 H2]. unfold CLMIN_of, CLMAX_of. split.
    + apply Rmax_lub; assumption.
    + apply Rmin_glb; assumption.
  - intros HM.
    assert (Hmax : CLMAXM_of p M = Cl_at_cd_min p).
    { unfold CLMAXM_of. rewrite Rmax_left; [lra|].
      unfold Rdiv, CLMFACTOR.
      assert (Mach_crit p + DMSTALL_of - M <= 0) by lra. nra. }
    assert (Hmin : CLMINM_of p M = Cl_at_cd_min p) by lra.
    unfold CLMAX_of, CLMIN_of. rewrite Hmax, Hmin. repeat split.
Qed.

Lemma xRotor_stall_bounds_witness :
  exists L,
    xRotor_eval usage_parameters 0.1 1e+6 0 0.5 = Ok L /\
    CLMAX L <= Cl_max usage_parameters /\
    Cl_min usage_parameters <= CLMIN L.
Proof.
  eexists. split; [exact usage_evaluation_returns|].
  pose proof (xRotor_stall_bounds usage_parameters 0.1 1e+6 0 0.5 _
                usage_evaluation_returns) as (H1 & H2 & _).
  split; assumption.
Defined.

Lemma ln_le_mono (a b : R) : 0 < a -> a <= b -> ln a <= ln b.
Proof.
  intros Ha [H|H].
  - left. apply ln_increasing; assumption.
  - subst. right. reflexivity.
Qed.

Lemma ln_ratio (a b : R) : 0 < a -> 0 < b -> ln (a / b) = ln a - ln b.
Proof.
  intros Ha Hb. unfold Rdiv.
  rewrite ln_mult by (try assumption; apply Rinv_0_lt_compat, Hb).
  rewrite ln_Rinv by exact Hb. ring.
Qed.

Lemma softplus_above (a : R) : a < ln (1 + exp a).
Proof.
  pose proof (exp_pos a) as He.
  rewrite <- (ln_exp a) at 1. apply ln_increasing; lra.
Qed.

Lemma softplus_below (b : R) : b <= 0 -> ln (1 + exp b) <= ln 2.
Proof.
  intros Hb. pose proof (exp_pos b) as He.
  apply ln_le_mono; [lra|].
  pose proof (exp_le b 0 Hb) as H. rewrite exp_0 in H. lra.
Qed.

(** The fully limited lift [Cl_lin - CLLIM] against the stall bounds. *)
Lemma limited_lift_bounds (p : EmpiricalAirfoilParameters) (AoA M : R) :
  0 < Cl_incr_to_stall p ->
  ((Cl_lin_of p AoA M - CLMAX_of p M) / Cl_incr_to_stall p <= 200 ->
   CLMIN_of p M <= Cl_lin_of p AoA M ->
   Cl_lin_of p AoA M - CLLIM_of p AoA M
   <= CLMAX_of p M + Cl_incr_to_stall p * ln 2) /\
  ((CLMIN_of p M - Cl_lin_of p AoA M) / Cl_incr_to_stall p <= 200 ->
   Cl_lin_of p AoA M <= CLMAX_of p M ->
   CLMIN_of p M - Cl_incr_to_stall p * ln 2
   <= Cl_lin_of p AoA M - CLLIM_of p AoA M).
Proof.
  intros Hc.
  set (c := Cl_incr_to_stall p) in *.
  set (a := (Cl_lin_of p AoA M - CLMAX_of p M) / c).
  set (b := (CLMIN_of p M - Cl_lin_of p AoA M) / c).
  assert (Hca : c * a = Cl_lin_of p AoA M - CLMAX_of p M)
    by (unfold a; field; lra).
  assert (Hcb : c * b = CLMIN_of p M - Cl_lin_of p AoA M)
    by (unfold b; field; lra).
  assert (HL : CLLIM_of p AoA M
               = c * (ln (1 + exp (Rmin 200 a))
                      - ln (1 + exp (Rmin 200 b)))).
  { unfold CLLIM_of, ECMAX_of, ECMIN_of. fold c a b.
    pose proof (exp_pos (Rmin 200 a)). pose proof (exp_pos (Rmin 200 b)).
    rewrite ln_ratio by lra. reflexivity. }
  assert (Hsign : forall t, t * c <= 0 -> t <= 0) by (intros t Ht; nra).
  split.
  - intros Ha Hb.
    assert (Hb0 : b <= 0) by (apply Hsign; lra).
    rewrite HL, (Rmin_right 200 a) by exact Ha.
    rewrite (Rmin_right 200 b) by lra.
    pose proof (softplus_above a). pose proof (softplus_below b Hb0). nra.
  - intros Hb Ha.
    assert (Ha0 : a <= 0) by (apply Hsign; lra).
    rewrite HL, (Rmin_right 200 b) by exact Hb.
    rewrite (Rmin_right 200 a) by lra.
    pose proof (softplus_above b). pose proof (softplus_below a Ha0). nra.
Qed.

(** X14: the limiter saturates the lift.  In a returning xRotor evaluation
    with [Cl_incr_to_stall > 0], as long as the exponent concerned stays
    below the cap of 200, the fully limited lift [Cl_lin - CLLIM] is at most
    [CLMAX + Cl_incr_to_stall ln 2] when [Cl_lin >= CLMIN], and at least
    [CLMIN - Cl_incr_to_stall ln 2] when [Cl_lin <= CLMAX]; the returned
    lift is the mix [FSTALL Cl_lin + (1 - FSTALL) (Cl_lin - CLLIM)]. *)
Theorem xRotor_lift_saturates (p : EmpiricalAirfoilParameters)
    (AoA Re_ref Re M : R) (L : xRotor_locals) :
  0 < Cl_incr_to_stall p ->
  xRotor_eval p AoA Re_ref Re M = Ok L ->
  ((Cl_lin L - CLMAX L) / Cl_incr_to_stall p <= 200 ->
   CLMIN L <= Cl_lin L ->
   Cl_lin L - CLLIM L <= CLMAX L + Cl_incr_to_stall p * ln 2) /\
  ((CLMIN L - Cl_lin L) / Cl_incr_to_stall p <= 200 ->
   Cl_lin L <= CLMAX L ->
   CLMIN L - Cl_incr_to_stall p * ln 2 <= Cl_lin L - CLLIM L) /\
  lift_coeff L
  = FSTALL L * Cl_lin L + (1 - FSTALL L) * (Cl_lin L - CLLIM L).
Proof.
  intros Hc E.
  destruct (xRotor_eval_inv p AoA Re_ref Re M L E) as (_ & _ & _ & _ & HL).
  remember (RCORR L) as rc eqn:Hrc. subst L.
  cbn [xRotor_formulas CLMAX CLMIN Cl_lin CLLIM FSTALL lift_coeff].
  destruct (limited_lift_bounds p AoA M Hc) as [Hup Hlo].
  split; [exact Hup|]. split; [exact Hlo|].
  unfold Cl_of. ring.
Qed.

Lemma xRotor_lift_saturates_witness :
  0 < Cl_incr_to_stall usage_parameters /\
  exists L,
    xRotor_eval usage_parameters 0.1 1e+6 0 0.5 = Ok L /\
    lift_coeff L
    = FSTALL L * Cl_lin L + (1 - FSTALL L) * (Cl_lin L - CLLIM L).
Proof.
  assert (Hc : 0 < Cl_incr_to_stall usage_parameters)
    by (cbn [usage_parameters Cl_incr_to_stall]; lra).
  split; [exact Hc|].
  eexists. split; [exact usage_evaluation_returns|].
  apply (proj2 (proj2 (xRotor_lift_saturates usage_parameters
                         0.1 1e+6 0 0.5 _ Hc usage_evaluation_returns))).
Defined.

(** ** The xRotor model: special cases *)

(** X15: when [Cl_alpha_stall = Cl_alpha] the stall model is switched off:
    in a returning xRotor evaluation [FSTALL = 1], the lift coefficient is
    the linear one whatever the limiter computes, and the post-stall drag
    is zero. *)
Theorem xRotor_unstalled (p : EmpiricalAirfoilParameters)
    (AoA Re_ref Re M : R) (L : xRotor_locals) :
  Cl_alpha_stall p = Cl_alpha p ->
  xRotor_eval p AoA Re_ref Re M = Ok L ->
  FSTALL L = 1 /\
  lift_coeff L = Cl_alpha p * PG L * (AoA - alpha_0_lift p) /\
  DCDX L = 0 /\ DCD L = 0.
Proof.
  intros Hst E.
  destruct (xRotor_eval_inv p AoA Re_ref Re M L E) as (_ & Ha & _ & _ & HL).
  remember (RCORR L) as rc eqn:Hrc. subst L.
  cbn [xRotor_formulas FSTALL lift_coeff PG DCDX DCD].
  assert (HF : FSTALL_of p = 1) by (unfold FSTALL_of; rewrite Hst; field; exact Ha).
  assert (HX : DCDX_of p AoA M = 0).
  { unfold DCDX_of. rewrite HF. unfold Rdiv. ring. }
  split; [exact HF|]. split.
  - unfold Cl_of, Cl_lin_of. rewrite HF. ring.
  - split; [exact HX|]. unfold DCD_of. rewrite HX. ring.
Qed.

Lemma xRotor_unstalled_witness :
  exists L,
    xRotor_eval unstalled_parameters 0.1 1e+6 0 0.5 = Ok L /\
    FSTALL L = 1 /\ DCD L = 0.
Proof.
  assert (E : xRotor_eval unstalled_parameters 0.1 1e+6 0 0.5
              = Ok (xRotor_formulas unstalled_parameters 0.1 0.5 (PyFloat 1)))
    by (apply xRotor_eval_at_rest;
        cbn [unstalled_parameters Cl_alpha Cl_incr_to_stall]; lra).
  eexists. split; [exact E|].
  pose proof (xRotor_unstalled unstalled_parameters 0.1 1e+6 0 0.5 _
                eq_refl E) as (H1 & _ & _ & H2).
  split; assumption.
Defined.

Lemma DMDD_of_cubed : CDMFACTOR * DMDD_of ^ 3 = CDMDD.
Proof.
  pose proof DMDD_of_pos as HD.
  rewrite <- Rpower_3 by exact HD. unfold DMDD_of.
  rewrite Rpower_mult. unfold MEXP.
  replace (1 / 3 * 3) with 1 by lra.
  rewrite Rpower_1 by (unfold CDMDD, CDMFACTOR; lra).
  unfold CDMDD, CDMFACTOR. lra.
Qed.

(** X16: the compressibility drag at the critical Mach number.  In a
    returning xRotor evaluation [CRITMACH] lies at least [DMDD] below
    [Mach_crit], and [DMDD] is such that [CDMFACTOR DMDD^3 = CDMDD]: so
    from [M = Mach_crit] on, [CDC] is at least [CDMDD = 0.0020], and it is
    exactly [CDMDD] at [M = Mach_crit] when [Cl = Cl_at_cd_min]. *)
Theorem xRotor_drag_rise_at_critical_mach (p : EmpiricalAirfoilParameters)
    (AoA Re_ref Re M : R) (L : xRotor_locals) :
  xRotor_eval p AoA Re_ref Re M = Ok L ->
  CRITMACH L <= Mach_crit p - DMDD L /\
  0 < DMDD L /\
  CDMFACTOR * DMDD L ^ 3 = CDMDD /\
  (Mach_crit p <= M -> CDMDD <= CDC L) /\
  (M = Mach_crit p -> lift_coeff L = Cl_at_cd_min p -> CDC L = CDMDD).
Proof.
  intros E.
  destruct (xRotor_eval_inv p AoA Re_ref Re M L E) as (_ & _ & _ & _ & HL).
  remember (RCORR L) as rc eqn:Hrc. subst L.
  cbn [xRotor_formulas CRITMACH DMDD CDC lift_coeff].
  pose proof DMDD_of_pos as HD. pose proof DMDD_of_cubed as H3.
  assert (Hcrit : CRITMACH_of p AoA M <= Mach_crit p - DMDD_of).
  { unfold CRITMACH_of, CLMFACTOR.
    pose proof (Rabs_pos (Cl_of p AoA M - Cl_at_cd_min p)). lra. }
  split; [exact Hcrit|]. split; [exact HD|]. split; [exact H3|]. split.
  - intros HM.
    rewrite (proj2 (CDC_of_excess p AoA M)) by lra.
    pose proof (cube_le DMDD_of (M - CRITMACH_of p AoA M)
                  ltac:(lra) ltac:(lra)) as Hc.
    unfold CDMFACTOR in *. lra.
  - intros HM HCl.
    rewrite (proj2 (CDC_of_excess p AoA M)) by lra.
    assert (Hx : M - CRITMACH_of p AoA M = DMDD_of).
    { unfold CRITMACH_of. rewrite HCl, HM.
      replace (Cl_at_cd_min p - Cl_at_cd_min p) with 0 by ring.
      rewrite Rabs_R0. ring. }
    rewrite Hx. exact H3.
Qed.

Lemma xRotor_drag_rise_at_critical_mach_witness :
  exists L,
    xRotor_eval usage_parameters 0.1 1e+6 0 0.5 = Ok L /\
    CRITMACH L <= Mach_crit usage_parameters - DMDD L.
Proof.
  eexists. split; [exact usage_evaluation_returns|].
  apply (proj1 (xRotor_drag_rise_at_critical_mach usage_parameters
                  0.1 1e+6 0 0.5 _ usage_evaluation_returns)).
Defined.

Lemma reynolds_RCORR_neutral (Re_ref Re e : R) (rc : pynum) :
  Re <= 0 \/ Re = Re_ref ->
  reynolds_RCORR Re_ref Re e = Ok rc -> rc = PyFloat 1.
Proof.
  intros H. unfold reynolds_RCORR.
  destruct (Rle_dec Re 0) as [L|N].
  - intros E. injection E as <-. reflexivity.
  - destruct H as [H|H]; [lra|]. subst Re_ref.
    intros E. apply bind_Ok_inv in E. destruct E as (q & Hq & E).
    apply truediv_inv in Hq. destruct Hq as [HR ->].
    replace (Re / Re) with 1 in E by (field; exact HR).
    unfold float_pow in E.
    destruct (Req_dec_T e 0); [injection E as <-; reflexivity|].
    destruct (Req_dec_T 1 0); [lra|].
    destruct (Rlt_dec 0 1); [|lra].
    injection E as <-. rewrite Rpower_1_base. reflexivity.
Qed.

(** X17: the Reynolds numbers in the xRotor model.  Two returning
    evaluations that differ only in [Re] and [Re_ref] agree on the lift
    coefficient and on the drag additions [DCD] and [CDC]; and when
    [Re <= 0] or [Re = Re_ref] the scaling [RCORR] is [1], so that the drag
    coefficient is the float
    [Cd_min + dCd_dCl2 (Cl - Cl_at_cd_min)^2 + DCD + CDC]. *)
Theorem xRotor_reynolds_dependence (p : EmpiricalAirfoilParameters)
    (AoA Re_ref Re Re_ref' Re' M : R) (L L' : xRotor_locals) :
  xRotor_eval p AoA Re_ref Re M = Ok L ->
  xRotor_eval p AoA Re_ref' Re' M = Ok L' ->
  lift_coeff L = lift_coeff L' /\ DCD L = DCD L' /\ CDC L = CDC L' /\
  (Re <= 0 \/ Re = Re_ref ->
   RCORR L = PyFloat 1 /\
   drag_coeff L
   = PyFloat (Cd_min p
              + dCd_dCl2 p * (lift_coeff L - Cl_at_cd_min p) ^ 2
              + DCD L + CDC L)).
Proof.
  intros E E'.
  destruct (xRotor_eval_inv p AoA Re_ref Re M L E) as (_ & _ & _ & Hr & HL).
  destruct (xRotor_eval_inv p AoA Re_ref' Re' M L' E')
    as (_ & _ & _ & _ & HL').
  remember (RCORR L) as rc eqn:Hrc. remember (RCORR L') as rc' eqn:Hrc'.
  subst L L'. cbn [xRotor_formulas lift_coeff DCD CDC RCORR drag_coeff].
  repeat split.
  - exact (reynolds_RCORR_neutral _ _ _ _ H Hr).
  - rewrite (reynolds_RCORR_neutral _ _ _ _ H Hr).
    unfold Cd_of, Cd_base_of. cbn [num_mul num_add]. f_equal. ring.
Qed.

Lemma xRotor_reynolds_dependence_witness :
  exists L,
    xRotor_eval usage_parameters 0.1 1e+6 0 0.5 = Ok L /\
    RCORR L = PyFloat 1.
Proof.
  eexists. split; [exact usage_evaluation_returns|].
  apply (proj2 (proj2 (proj2
           (xRotor_reynolds_dependence usage_parameters
              0.1 1e+6 0 1e+6 0 0.5 _ _
              usage_evaluation_returns usage_evaluation_returns)))).
  left. lra.
Defined.

(** X18: at [AoA = alpha_0_lift] the linear lift of a returning xRotor
    evaluation is zero, but the returned lift coefficient is zero only for
    stall bounds symmetric about zero: it is [0] when [CLMIN = - CLMAX],
    and positive when [CLMAX + CLMIN > 0], [Cl_incr_to_stall > 0] and
    [FSTALL < 1] (the exponent of [ECMAX] below the cap). *)
Theorem xRotor_at_zero_lift_angle (p : EmpiricalAirfoilParameters)
    (AoA Re_ref Re M : R) (L : xRotor_locals) :
  AoA = alpha_0_lift p ->
  xRotor_eval p AoA Re_ref Re M = Ok L ->
  Cl_lin L = 0 /\
  (CLMIN L = - CLMAX L -> lift_coeff L = 0) /\
  (0 < Cl_incr_to_stall p -> FSTALL L < 1 ->
   0 < CLMAX L + CLMIN L ->
   - CLMAX L / Cl_incr_to_stall p < 200 ->
   0 < lift_coeff L).
Proof.
  intros HA E.
  destruct (xRotor_eval_inv p AoA Re_ref Re M L E) as (_ & _ & _ & _ & HL).
  remember (RCORR L) as rc eqn:Hrc. subst L.
  cbn [xRotor_formulas Cl_lin CLMIN CLMAX lift_coeff FSTALL].
  assert (Hlin : Cl_lin_of p AoA M = 0)
    by (unfold Cl_lin_of; rewrite HA; ring).
  split; [exact Hlin|]. split.
  - intros Hsym. unfold Cl_of, CLLIM_of, ECMAX_of, ECMIN_of.
    rewrite Hlin, Hsym.
    replace (- CLMAX_of p M - 0) with (0 - CLMAX_of p M) by ring.
    set (e := exp (Rmin 200 ((0 - CLMAX_of p M) / Cl_incr_to_stall p))).
    assert (He : 0 < e) by apply exp_pos.
    replace ((1 + e) / (1 + e)) with 1 by (field; lra).
    rewrite ln_1. ring.
  - intros Hc HF Hsum Hcap.
    assert (Hneg : CLLIM_of p AoA M < 0).
    { apply limiter_negative; [exact Hc | rewrite Hlin; lra |].
      rewrite Hlin.
      replace (0 - CLMAX_of p M) with (- CLMAX_of p M) by ring.
      exact Hcap. }
    unfold Cl_of. rewrite Hlin. nra.
Qed.

Lemma xRotor_at_zero_lift_angle_witness :
  exists L,
    xRotor_eval usage_parameters 0 1e+6 0 0.5 = Ok L /\ Cl_lin L = 0.
Proof.
  assert (E : xRotor_eval usage_parameters 0 1e+6 0 0.5
              = Ok (xRotor_formulas usage_parameters 0 0.5 (PyFloat 1)))
    by (apply xRotor_eval_at_rest;
        cbn [usage_parameters Cl_alpha Cl_incr_to_stall]; lra).
  eexists. split; [exact E|].
  apply (proj1 (xRotor_at_zero_lift_angle usage_parameters 0 1e+6 0 0.5 _
                  eq_refl E)).
Defined.

(** ** [eval_lift_properties] on a linear polar *)

Lemma mapM_pure {A B : Type} (f : A -> result B) (g : A -> B) (l : list A) :
  (forall a, In a l -> f a = Ok (g a)) -> mapM f l = Ok (map g l).
Proof.
  induction l as [|a l IH]; intros H; [reflexivity|].
  cbn [mapM map]. rewrite (H a) by (left; reflexivity). cbn [bind].
  rewrite IH by (intros b Hb; apply H; right; exact Hb). reflexivity.
Qed.

(** Inside the axis, interpolation through the points of a line gives the
    line back. *)
Lemma interp1_affine (k m : R) (xs : list R) :
  increasing xs ->
  forall x, hd 0 xs <= x <= last xs 0 -> xs <> [] ->
            interp1 xs (map (fun t => k * t + m) xs) x = k * x + m.
Proof.
  induction xs as [|x0 xs IH]; intros Hinc x Hx Hne; [contradiction|].
  destruct Hinc as [Hall Hinc]. cbn [map interp1].
  destruct (Rle_dec x x0) as [L|N].
  - cbn [hd] in Hx. replace x with x0 by lra. reflexivity.
  - destruct xs as [|x1 xs'].
    + cbn [hd last] in Hx. lra.
    + cbn [map].
      destruct (Rlt_dec x x1) as [L1|N1].
      * assert (H01 : x0 < x1) by (inversion Hall; assumption).
        field. lra.
      * apply IH; [exact Hinc | | discriminate].
        split; [cbn [hd]; lra|].
        destruct Hx as [_ Hx]. exact Hx.
Qed.

(** Interpolation through equal values gives that value everywhere. *)
Lemma interp1_constant (v : R) (ys vs : list R) (y : R) :
  ys <> [] -> length vs = length ys -> Forall (fun w => w = v) vs ->
  interp1 ys vs y = v.
Proof.
  revert vs. induction ys as [|y0 ys IH]; intros vs Hne Hlen Hall;
    [contradiction|].
  destruct vs as [|v0 vs]; [discriminate Hlen|].
  inversion Hall as [|? ? Hv0 Hvs]; subst. injection Hlen as Hlen.
  cbn [interp1].
  destruct (Rle_dec y y0); [reflexivity|].
  destruct ys as [|y1 ys']; [destruct vs; reflexivity|].
  destruct vs as [|v1 vs']; [discriminate Hlen|].
  destruct (Rlt_dec y y1).
  - inversion Hvs; subst. ring.
  - apply IH; [discriminate | exact Hlen | exact Hvs].
Qed.

(** The interpolant of a linear polar is the line, at every station. *)
Lemma bilinear_linear_polar (k m : R) (xs ys : list R) (z : list (list R))
    (a yq : R) :
  linear_polar k m xs ys z ->
  increasing xs -> xs <> [] -> ys <> [] ->
  hd 0 xs <= a <= last xs 0 ->
  bilinear xs ys z a yq = k * a + m.
Proof.
  intros [Hlen Hrows] Hinc Hx Hy Ha. unfold bilinear.
  apply interp1_constant; [exact Hy | rewrite length_map; exact Hlen |].
  rewrite Forall_map. revert Hrows. apply Forall_impl.
  intros row ->. apply interp1_affine; assumption.
Qed.

Lemma linear_polar_shape (k m : R) (xs ys : list R) (z : list (list R)) :
  linear_polar k m xs ys z -> grid_shape xs ys z = true.
Proof.
  intros [Hlen Hrows]. unfold grid_shape.
  apply andb_true_intro. split; [apply Nat.eqb_eq, Hlen|].
  apply forallb_forall. intros row Hin. rewrite Forall_forall in Hrows.
  rewrite (Hrows row Hin), length_map. apply Nat.eqb_refl.
Qed.

Lemma increasing_map_seq (f : nat -> R) (a n : nat) :
  (forall i j, (i < j)%nat -> f i < f j) -> increasing (map f (seq a n)).
Proof.
  intros Hf. revert a. induction n as [|n IH]; intros a; [exact I|].
  cbn [seq map increasing]. split; [|apply IH].
  apply Forall_forall. intros y Hy. apply in_map_iff in Hy.
  destruct Hy as (j & <- & Hj). apply in_seq in Hj. apply Hf. lia.
Qed.

Lemma increasing_map_affine (k m : R) (xs : list R) :
  0 < k -> increasing xs -> increasing (map (fun t => k * t + m) xs).
Proof.
  intros Hk. induction xs as [|x0 xs IH]; intros Hinc; [exact I|].
  destruct Hinc as [Hall Hinc]. cbn [map increasing]. split; [|apply IH, Hinc].
  rewrite Forall_map. revert Hall. apply Forall_impl. intros t Ht. nra.
Qed.

Lemma hd_map (f : R -> R) (xs : list R) :
  xs <> [] -> hd 0 (map f xs) = f (hd 0 xs).
Proof. destruct xs; [contradiction | reflexivity]. Qed.

Lemma last_map (f : R -> R) (xs : list R) :
  xs <> [] -> last (map f xs) 0 = f (last xs 0).
Proof.
  induction xs as [|x0 xs IH]; intros Hne; [contradiction|].
  destruct xs as [|x1 xs']; [reflexivity|].
  change (last (map f (x0 :: x1 :: xs')) 0)
    with (last (map f (x1 :: xs')) 0).
  change (last (x0 :: x1 :: xs') 0) with (last (x1 :: xs') 0).
  apply IH. discriminate.
Qed.

(** The ten sample angles of line 87. *)
Lemma sample_angles :
  let A := linspace (-6) 6 10 in
  increasing A /\ A <> [] /\ hd 0 A = -6 /\ last A 0 = 6 /\
  forall a, In a A -> -6 <= a <= 6.
Proof.
  cbv zeta. unfold linspace.
  assert (Hstep : (6 - -6) / INR (10 - 1) = 4 / 3).
  { replace (INR (10 - 1)) with 9 by (simpl; lra). lra. }
  rewrite Hstep. split; [|split; [|split; [|split]]].
  - apply increasing_map_seq. intros i j Hij.
    apply lt_INR in Hij. lra.
  - discriminate.
  - cbn [seq map hd]. simpl INR. lra.
  - change (seq 0 10) with (seq 0 9 ++ [9%nat]).
    rewrite map_app. cbn [map]. rewrite last_last.
    replace (INR 9) with 9 by (simpl; lra). lra.
  - intros a Ha. apply in_map_iff in Ha. destruct Ha as (i & <- & Hi).
    apply in_seq in Hi.
    assert (H0 : 0 <= INR i) by apply pos_INR.
    assert (H9 : INR i <= 9).
    { replace 9 with (INR 9) by (simpl; lra). apply le_INR. lia. }
    lra.
Qed.

(** X19: a linear polar is recovered exactly.  Under the xFoil method, with
    the table interpolated linearly, an increasing angle axis that covers
    [[-6, 6]] degrees and a lift table equal to [k alpha + m] at every
    station, with [k > 0] and a zero crossing inside [[-6, 6]],
    [eval_lift_properties] returns the slope [k] converted to per radian
    (over [sqrt(1 - M^2)] with the Mach flag set) and the zero-lift angle
    [-m/k] converted to radians, for every station asked. *)
Theorem lift_properties_linear_polar (self : Aerodynamics)
    (xs ys : list R) (z : list (list R)) (k m xq M : R)
    (a0 cla : option R) :
  aero_method self = "xFoil"%string ->
  alpha_vec self = Some xs ->
  linear_polar k m xs ys z ->
  increasing xs -> ys <> [] ->
  hd 0 xs <= -6 -> 6 <= last xs 0 ->
  0 < k -> k * -6 + m <= 0 <= k * 6 + m ->
  0 <= M < 1 ->
  eval_lift_properties interp2d_linear np_interp_linear self (Some z)
    (Some ys) (Some xq) (Some M) a0 cla
  = Ok ((if M_corr self then k / sqrt (1 - M ^ 2) else k) * (180 / PI),
        - m / k * (PI / 180)).
Proof.
  intros Hm Hav Hlin Hinc Hy Hlo Hhi Hk Hzero HM.
  assert (Hx : xs <> []).
  { intros ->. cbn [hd last] in Hlo, Hhi. lra. }
  pose proof (linear_polar_shape k m xs ys z Hlin) as Hshape.
  destruct sample_angles as (HAinc & HAne & HAhd & HAlast & HAin).
  assert (Hf : forall a, -6 <= a <= 6 ->
                 bilinear xs ys z a xq = k * a + m).
  { intros a Ha. apply bilinear_linear_polar; try assumption. lra. }
  unfold eval_lift_properties. cbn [bind]. rewrite Hm.
  change (String.eqb "xFoil" "flat_plate") with false.
  change (String.eqb "xFoil" "xFoil") with true. cbv iota.
  rewrite Hav. unfold interp2d_linear. rewrite Hshape. cbn [bind].
  rewrite !Hf by lra.
  rewrite (mapM_pure _ (fun a => k * a + m))
    by (intros a Ha; rewrite Hf by (apply HAin, Ha); reflexivity).
  cbn [bind]. rewrite lift_properties_tail by exact HM.
  unfold np_interp_linear.
  assert (Hinv : interp1 (map (fun a => k * a + m) (linspace (-6) 6 10))
                   (linspace (-6) 6 10) 0
                 = - m / k).
  { generalize dependent (linspace (-6) 6 10). intros A HAinc HAne HAhd
      HAlast HAin.
    assert (HA : A = map (fun c => / k * c + - m / k)
                       (map (fun a => k * a + m) A)).
    { rewrite map_map. rewrite <- (map_id A) at 1.
      apply map_ext. intros a. field. lra. }
    rewrite HA at 2.
    rewrite (interp1_affine (/ k) (- m / k)).
    - field. lra.
    - apply increasing_map_affine; assumption.
    - rewrite hd_map, last_map, HAhd, HAlast by exact HAne. lra.
    - destruct A; [contradiction | discriminate]. }
  rewrite Hinv. unfold rad2deg, deg2rad.
  pose proof (sqrt_compl_pos M HM) as Hs.
  f_equal. f_equal.
  destruct (M_corr self).
  - f_equal. field. lra.
  - f_equal. lra.
Qed.

Lemma linear_Cl_database_linear :
  linear_polar 0.1 0.1 linear_alpha_vec example_r_R linear_Cl_database.
Proof.
  split; [reflexivity|].
  assert (Hrow : [-0.9; 1.1] = map (fun a => 0.1 * a + 0.1) linear_alpha_vec).
  { cbn [linear_alpha_vec map]. f_equal; [lra|]. f_equal. lra. }
  unfold linear_Cl_database. repeat constructor; exact Hrow.
Defined.

Lemma linear_alpha_vec_increasing : increasing linear_alpha_vec.
Proof.
  cbn [linear_alpha_vec increasing]. repeat constructor. lra.
Defined.

Lemma lift_properties_linear_polar_witness :
  0 <= 0.5 < 1 /\
  eval_lift_properties interp2d_linear np_interp_linear
    (xFoil_evaluator linear_alpha_vec false false)
    (Some linear_Cl_database) (Some example_r_R) (Some 0.7) (Some 0.5)
    None None
  = Ok (0.1 * (180 / PI), - (0.1) / 0.1 * (PI / 180)).
Proof.
  split; [lra|].
  apply (lift_properties_linear_polar
           (xFoil_evaluator linear_alpha_vec false false)
           linear_alpha_vec example_r_R linear_Cl_database 0.1 0.1 0.7 0.5
           None None eq_refl eq_refl
           linear_Cl_database_linear linear_alpha_vec_increasing);
    try (cbn [linear_alpha_vec hd last]; lra).
  discriminate.
Defined.

(** ** Arguments that a cleared flag leaves unused *)

(** X20: what [eval_coeffs] does not read.  With the Reynolds flag cleared,
    the outcome under the flat-plate and the xFoil methods depends neither
    on [Re] nor on [Re_ref] (zero and negative values included); under the
    xFoil method with the Mach flag cleared as well it does not depend on
    the Mach number either, supersonic values included. *)
Theorem cleared_flags_unused_arguments
    (interp2d : option (list R) -> option (list R) ->
                option (list (list R)) -> result (R -> option R -> result R))
    (self : Aerodynamics) (AoA Re_ref Re M Re_ref' Re' M' : R)
    (x : option R) (r_R : option (list R))
    (Cl_database Cd_database : option (list (list R)))
    (a0 cla clas clmax clmin clincr cdmin clcd dcd mcrit rexp : option R) :
  Rey_corr self = false ->
  (aero_method self = "flat_plate"%string \/
   aero_method self = "xFoil"%string ->
   eval_coeffs interp2d self AoA Re_ref Re M x r_R Cl_database Cd_database
     a0 cla clas clmax clmin clincr cdmin clcd dcd mcrit rexp
   = eval_coeffs interp2d self AoA Re_ref' Re' M x r_R Cl_database
       Cd_database a0 cla clas clmax clmin clincr cdmin clcd dcd mcrit rexp)
  /\
  (aero_method self = "xFoil"%string -> M_corr self = false ->
   eval_coeffs interp2d self AoA Re_ref Re M x r_R Cl_database Cd_database
     a0 cla clas clmax clmin clincr cdmin clcd dcd mcrit rexp
   = eval_coeffs interp2d self AoA Re_ref' Re' M' x r_R Cl_database
       Cd_database a0 cla clas clmax clmin clincr cdmin clcd dcd mcrit rexp).
Proof.
  intros Hrc. split.
  - intros [Hm|Hm].
    + rewrite !eval_coeffs_flat_plate by exact Hm.
      unfold post_processing. rewrite Hrc. reflexivity.
    + rewrite !eval_coeffs_xFoil by exact Hm.
      unfold post_processing. rewrite Hrc. reflexivity.
  - intros Hm Hmc. rewrite !eval_coeffs_xFoil by exact Hm.
    unfold post_processing. rewrite Hrc, Hmc. reflexivity.
Qed.

Lemma cleared_flags_unused_arguments_witness :
  eval_coeffs_example_table false false 5 1e+6 2e+6 0.6 0.2
  = eval_coeffs_example_table false false 5 0 (-1) 3 0.2.
Proof.
  apply (proj2 (cleared_flags_unused_arguments interp2d_linear
                  (xFoil_evaluator example_alpha_vec false false)
                  5 1e+6 2e+6 0.6 0 (-1) 3
                  (Some 0.2) (Some example_r_R)
                  (Some example_Cl_database) (Some example_Cd_database)
                  None None None None None None None None None None None
                  eq_refl));
    reflexivity.
Defined.
